(** * daangn-watcher: watch lifecycle, ledger and scan

    A shallow embedding of [main.py]: the SQLite ledger ([product_table]),
    the Telegram notifier, the per-filter monitor loop, the one-shot scan
    and the registry of monitor tasks ([_monitor_tasks]), followed by the
    properties of the specification that concern them. *)

From Stdlib Require Import ZArith Lia Bool.
From stdpp Require Import base option list sorting strings pretty gmap.

Local Open Scope string_scope.
Local Open Scope Z_scope.
Local Open Scope list_scope.

(** ** Python exceptions and results *)

(** The exception classes that the modelled code can meet.  All of them
    derive from [Exception], except [CancelledError], which derives from
    [BaseException] and so passes through [except Exception]. *)
Inductive exn :=
  | TypeError
  | ValueError
  | OverflowError
  | OtherError (msg : string)
  | CancelledError.

Definition is_Exception (e : exn) : bool :=
  match e with
  | CancelledError => false
  | _ => true
  end.

Inductive result (A : Type) :=
  | Ok (a : A)
  | Raise (e : exn).
Arguments Ok {A} a.
Arguments Raise {A} e.

(** ** Datetimes *)

(** A [datetime] is its wall-clock reading in microseconds since
    0001-01-01T00:00:00, aware (with its UTC offset) or naive. *)
Inductive datetime :=
  | Aware (wall_us : Z) (utcoffset_us : Z)
  | Naive (wall_us : Z).

Definition us_per_second : Z := 1000000.
Definition us_per_day : Z := 86400 * us_per_second.

(** [KST = timezone(timedelta(hours=9))] *)
Definition KST : Z := 9 * 3600 * us_per_second.

(** [date.max.toordinal() = 3652059]: the wall clock of a datetime lies in
    [0, datetime_range). *)
Definition datetime_range : Z := 3652059 * us_per_day.

Definition instant (wall off : Z) : Z := wall - off.

(** [a > b] on datetimes: aware against naive raises [TypeError]. *)
Definition dt_gt (a b : datetime) : result bool :=
  match a, b with
  | Aware wa oa, Aware wb ob => Ok (instant wb ob <? instant wa oa)
  | Naive wa, Naive wb => Ok (wb <? wa)
  | _, _ => Raise TypeError
  end.

(** [a >= b] on datetimes. *)
Definition dt_ge (a b : datetime) : result bool :=
  match a, b with
  | Aware wa oa, Aware wb ob => Ok (instant wb ob <=? instant wa oa)
  | Naive wa, Naive wb => Ok (wb <=? wa)
  | _, _ => Raise TypeError
  end.

(** [timedelta(days=d)], in microseconds; [OverflowError] beyond
    999999999 days. *)
Definition timedelta_days (d : Z) : result Z :=
  if (Z.abs d <=? 999999999) then Ok (d * us_per_day) else Raise OverflowError.

(** [dt - delta]: the wall clock moves, the offset stays; out of the
    datetime range it raises [OverflowError]. *)
Definition dt_sub (dt : datetime) (delta_us : Z) : result datetime :=
  let in_range w := (0 <=? w) && (w <? datetime_range) in
  match dt with
  | Aware w o => if in_range (w - delta_us) then Ok (Aware (w - delta_us) o)
                 else Raise OverflowError
  | Naive w => if in_range (w - delta_us) then Ok (Naive (w - delta_us))
               else Raise OverflowError
  end.

(** ** Listings *)

(** What [int(float(price))] gives: the integer, or the exception that
    the conversion raises ([ValueError] for a string that is no number or
    for [nan], [TypeError] for a list or a dict, [OverflowError] for an
    infinite float such as the one of 1e400). *)
Inductive IntFloat :=
  | IntOf (z : Z)
  | RaisesValueError
  | RaisesTypeError
  | RaisesOverflowError.

(** The [price] of a listing is whatever the JSON-LD held (a number, a
    string, null).  The code observes it in two ways only: its truth value
    and [int(float(price))]; a price is represented by these two
    observations. *)
Record Price := {
  price_truthy : bool;
  price_int_float : IntFloat
}.

(** [int(float(price)) if price else 0] *)
Definition price_to_int (p : Price) : result Z :=
  if price_truthy p then
    match price_int_float p with
    | IntOf z => Ok z
    | RaisesValueError => Raise ValueError
    | RaisesTypeError => Raise TypeError
    | RaisesOverflowError => Raise OverflowError
    end
  else Ok 0.

(** The dict appended to [items] by [fetch_search_results].  The id is a
    [str], as [product_exists] and [mark_product] annotate it. *)
Record Listing := {
  it_id : string;
  it_title : string;
  it_description : string;
  it_url : string;
  it_price : Price;
  it_priceCurrency : string;
  it_seller : string;
  it_location : string;
  it_search_keyword : string;
  it_pull_up_time_text : option datetime
}.

(** ** The world: ledger, notifier traffic, sleeps and log *)

(** A row of [product_table] (the [ts] column, filled by SQLite, is left
    out). *)
Record Row := {
  r_id : string;
  r_keyword : string;
  r_title : string;
  r_description : string;
  r_price : Z;
  r_seller : string;
  r_location : string;
  r_url : string
}.

(** The text handed to [send_telegram], kept as the fields that the
    f-string interpolates. *)
Record Message := {
  m_title : string;
  m_price_int : Z;
  m_location : string;
  m_keyword : string;
  m_time : option datetime;
  m_description : string;
  m_url : string
}.

(** One call of [send_telegram].  [tc_item] is the id of the listing the
    message is about; it is not transmitted and only serves to count the
    notifications of a listing. *)
Record TgCall := {
  tc_item : string;
  tc_chat_ids : list string;
  tc_text : Message
}.

Inductive LogLine :=
  | LogDbError (item_id : string) (e : exn)
  | LogTelegramError (chat_id : string) (e : exn)
  | LogItemError (item_id : string) (e : exn)
  | LogLoopError (e : exn)
  | LogCancelled.

Record World := {
  product_table : list Row;
  telegram_calls : list TgCall;
  sleeps : list Z;
  log : list LogLine
}.

Definition init_db : World :=
  {| product_table := []; telegram_calls := []; sleeps := []; log := [] |}.

(** The collaborators the code awaits on.  Each is indexed by how many
    times it was called before, so that its answers may change over time.
    - [env_fetch n]: what the [n]-th [fetch_search_results] returns;
    - [env_session n]: whether opening the HTTP session of the [n]-th
      [send_telegram] raises;
    - [env_post n chat_id]: the outcome of [session.post] to [chat_id] in
      the [n]-th [send_telegram];
    - [env_latency n i]: when the post of the [i]-th chat of the [n]-th
      [send_telegram] completes; the posts of one call run concurrently
      and end in the order of these times;
    - [env_sleep n]: whether the task is cancelled during its [n]-th
      [asyncio.sleep]. *)
Record Env := {
  env_fetch : nat -> result (list Listing);
  env_session : nat -> option exn;
  env_post : nat -> string -> result string;
  env_latency : nat -> nat -> nat;
  env_sleep : nat -> bool
}.

Record Config := {
  DEFAULT_CHAT_IDS : list string;
  POLL_INTERVAL : Z;
  startup_now : Z   (* wall clock of [datetime.now(KST)] at import *)
}.

(** [int(os.getenv("POLL_INTERVAL", "20"))] when the variable is unset. *)
Definition default_POLL_INTERVAL : Z := 20.

(** The sleep of the [except Exception] branch of the monitor loop. *)
Definition recovery_interval : Z := 5.

(** [server_start_time = datetime.now(KST) - timedelta(days=3)] *)
Definition server_start_time (cfg : Config) : datetime :=
  Aware (startup_now cfg - 3 * us_per_day) KST.

(** ** A state and exception monad for the effectful code *)

Definition M (A : Type) : Type := World -> World * result A.

Definition ret {A} (a : A) : M A := fun w => (w, Ok a).
Definition raise {A} (e : exn) : M A := fun w => (w, Raise e).
Definition lift {A} (r : result A) : M A := fun w => (w, r).

Definition bind {A B} (m : M A) (k : A -> M B) : M B :=
  fun w =>
    match m w with
    | (w', Ok a) => k a w'
    | (w', Raise e) => (w', Raise e)
    end.

Global Instance M_ret : MRet M := @ret.
Global Instance M_bind : MBind M := fun A B k m => bind m k.

(** [try: m  except Exception as e: h e] *)
Definition try_except {A} (m : M A) (h : exn -> M A) : M A :=
  fun w =>
    match m w with
    | (w', Ok a) => (w', Ok a)
    | (w', Raise e) => if is_Exception e then h e w' else (w', Raise e)
    end.

(** [for x in xs: body x] *)
Fixpoint for_each {A} (xs : list A) (body : A -> M unit) : M unit :=
  match xs with
  | [] => ret tt
  | x :: rest => body x ;; for_each rest body
  end.

Definition print (l : LogLine) : M unit :=
  fun w => ({| product_table := product_table w;
               telegram_calls := telegram_calls w;
               sleeps := sleeps w;
               log := log w ++ [l] |}, Ok tt).

(** ** Ledger *)

Definition has_id (item_id : string) (r : Row) : bool :=
  bool_decide (r_id r = item_id).

(** [SELECT 1 FROM product_table WHERE id = ?] then [bool(fetchone())] *)
Definition product_exists (item_id : string) : M bool :=
  fun w => (w, Ok (existsb (has_id item_id) (product_table w))).

(** [INSERT OR IGNORE]: [id] is the primary key, a row whose id is already
    there is dropped. *)
Definition insert_or_ignore (r : Row) : M unit :=
  fun w =>
    ({| product_table :=
          if existsb (has_id (r_id r)) (product_table w)
          then product_table w
          else product_table w ++ [r];
        telegram_calls := telegram_calls w;
        sleeps := sleeps w;
        log := log w |}, Ok tt).

(** The integers that SQLite stores: signed, 64 bits. *)
Definition fits_int64 (z : Z) : bool :=
  (- 2 ^ 63 <=? z) && (z <? 2 ^ 63).

(** [cur.execute] binds its parameters before the statement runs: for a
    Python [int] beyond 64 bits [sqlite3] raises [OverflowError]. *)
Definition bind_integer (z : Z) : result Z :=
  if fits_int64 z then Ok z else Raise OverflowError.

(** [mark_product]: the conversion of the price, the binding of the
    parameters and the [INSERT OR IGNORE] sit in a [try] whose
    [except Exception] logs.  The storage itself is taken to work:
    [connect], the execution of the statement and [commit] do not fail
    (so [conn] is bound when the [finally] block reads it). *)
Definition mark_product (item_id keyword title description : string)
    (price : Price) (seller location url : string) : M unit :=
  try_except
    (price_int ← lift (price_to_int price);
     price_int ← lift (bind_integer price_int);
     insert_or_ignore
       {| r_id := item_id; r_keyword := keyword; r_title := title;
          r_description := description; r_price := price_int;
          r_seller := seller; r_location := location; r_url := url |})
    (fun e => print (LogDbError item_id e)).

(** Whether the ledger holds a row with a given id. *)
Definition in_ledger (item_id : string) (w : World) : bool :=
  existsb (has_id item_id) (product_table w).

(** Number of rows of the ledger with a given id. *)
Definition count_id (item_id : string) (t : list Row) : nat :=
  length (filter (fun r => r_id r = item_id) t).

Definition rows_with (item_id : string) (w : World) : nat :=
  count_id item_id (product_table w).

(** The primary-key constraint of [product_table]. *)
Definition pk_unique (w : World) : Prop :=
  NoDup (map r_id (product_table w)).

(** ** Notifier *)

(** [send_to_one]: an [Exception] of [session.post] is logged and turned
    into [None]. *)
Definition send_to_one (env : Env) (n : nat) (chat_id : string)
    : M (option string) :=
  try_except
    (resp ← lift (env_post env n chat_id); ret (Some resp))
    (fun e => print (LogTelegramError chat_id e);; ret None).

(** The order in which [k] coroutines started together complete: their
    positions, sorted by completion time. *)
Definition completes_before (latency : nat -> nat) (i j : nat) : Prop :=
  (latency i <= latency j)%nat.

Global Instance completes_before_dec latency i j :
  Decision (completes_before latency i j) :=
  Nat.le_dec (latency i) (latency j).

Definition completion_order (latency : nat -> nat) (k : nat) : list nat :=
  merge_sort (completes_before latency) (seq 0 k).

(** The coroutines at the positions [order], run in that order; the result
    of each is kept under its position. *)
Fixpoint run_in_order {A} (coros : list (M A)) (order : list nat)
    (results : gmap nat A) : M (gmap nat A) :=
  match order with
  | [] => ret results
  | i :: rest =>
      match coros !! i with
      | Some c => r ← c; run_in_order coros rest (<[i := r]> results)
      | None => run_in_order coros rest results
      end
  end.

(** [asyncio.gather] over the coroutines.  They run concurrently: the one
    effect on the world of each coroutine gathered here is the line it logs
    when its request has failed, so the effects come in the order in which
    the requests complete.  The results are returned in the order of the
    arguments; an exception of one of them propagates. *)
Definition gather {A} (latency : nat -> nat) (coros : list (M A))
    : M (list A) :=
  results ← run_in_order coros (completion_order latency (length coros)) ∅;
  ret (omap (fun i => results !! i) (seq 0 (length coros))).

Definition record_call (c : TgCall) : M unit :=
  fun w => ({| product_table := product_table w;
               telegram_calls := telegram_calls w ++ [c];
               sleeps := sleeps w;
               log := log w |}, Ok tt).

Definition open_session (env : Env) (n : nat) : M unit :=
  match env_session env n with
  | Some e => raise e
  | None => ret tt
  end.

(** [send_telegram(chat_ids, text)]; every caller passes a list.  [item]
    is the bookkeeping id of [TgCall]. *)
Definition send_telegram (cfg : Config) (env : Env) (item : string)
    (chat_ids : list string) (text : Message) : M (list (option string)) :=
  fun w =>
    let n := length (telegram_calls w) in
    let chat_ids := if bool_decide (chat_ids = []) then DEFAULT_CHAT_IDS cfg
                    else chat_ids in
    (record_call {| tc_item := item; tc_chat_ids := chat_ids;
                    tc_text := text |};;
     open_session env n;;
     gather (env_latency env n) (map (send_to_one env n) chat_ids)) w.

(** Number of [send_telegram] calls made for a listing id. *)
Definition notifications (item_id : string) (w : World) : nat :=
  length (filter (fun c => tc_item c = item_id) (telegram_calls w)).

(** ** Listing source and sleep *)

Definition fetch_search_results (env : Env) (n : nat) (location keyword : string)
    (min_price max_price : option Z) : M (list Listing) :=
  lift (env_fetch env n).

(** [await asyncio.sleep(secs)]; a cancellation of the task is delivered
    here as [CancelledError]. *)
Definition sleep (env : Env) (secs : Z) : M unit :=
  fun w =>
    let n := length (sleeps w) in
    ({| product_table := product_table w;
        telegram_calls := telegram_calls w;
        sleeps := sleeps w ++ [secs];
        log := log w |},
     if env_sleep env n then Raise CancelledError else Ok tt).

(** ** Monitor *)

Definition notification_text (keyword : string) (it : Listing) (price_int : Z)
    (formatted_time : option datetime) : Message :=
  {| m_title := it_title it; m_price_int := price_int;
     m_location := it_location it; m_keyword := keyword;
     m_time := formatted_time; m_description := it_description it;
     m_url := it_url it |}.

(** [pull_up_text > server_start_time]; [None > datetime] raises
    [TypeError]. *)
Definition newer_than (pull_up_text : option datetime) (t : datetime)
    : result bool :=
  match pull_up_text with
  | None => Raise TypeError
  | Some d => dt_gt d t
  end.

(** The body of [for it in results] in [monitor_keyword]. *)
Definition monitor_item (cfg : Config) (env : Env) (keyword : string)
    (chat_ids : list string) (it : Listing) : M unit :=
  let pull_up_text := it_pull_up_time_text it in
  let formatted_time_for_telegram := pull_up_text in
  newer ← lift (newer_than pull_up_text (server_start_time cfg));
  if (newer : bool) then
    seen ← product_exists (it_id it);
    if negb seen then
      try_except
        (price_int ← lift (price_to_int (it_price it));
         send_telegram cfg env (it_id it) chat_ids
           (notification_text keyword it price_int
              formatted_time_for_telegram);;
         mark_product (it_id it) keyword (it_title it) (it_description it)
           (it_price it) (it_seller it) (it_location it) (it_url it))
        (fun e => print (LogItemError (it_id it) e))
    else ret tt
  else ret tt.

(** The [for] loop of one iteration, on the fetched [results]. *)
Definition monitor_results (cfg : Config) (env : Env) (keyword : string)
    (chat_ids : list string) (results : list Listing) : M unit :=
  for_each results (monitor_item cfg env keyword chat_ids).

(** The body of the inner [try] of [while True]. *)
Definition iteration_body (cfg : Config) (env : Env) (n : nat)
    (location keyword : string) (chat_ids : list string)
    (min_price max_price : option Z) : M unit :=
  results ← fetch_search_results env n location keyword min_price max_price;
  monitor_results cfg env keyword chat_ids results;;
  sleep env (POLL_INTERVAL cfg).

(** One turn of [while True]: the inner [try] with its [except Exception]. *)
Definition monitor_iteration (cfg : Config) (env : Env) (n : nat)
    (location keyword : string) (chat_ids : list string)
    (min_price max_price : option Z) : M unit :=
  try_except
    (iteration_body cfg env n location keyword chat_ids min_price max_price)
    (fun e => print (LogLoopError e);; sleep env recovery_interval).

Inductive TaskStatus :=
  | Looping            (* the given number of iterations is done *)
  | Returned           (* the coroutine returned *)
  | Failed (e : exn).  (* the coroutine ended with an exception *)

(** [while True] run for [fuel] iterations, starting with iteration [n]. *)
Fixpoint while_true (fuel : nat) (cfg : Config) (env : Env) (n : nat)
    (location keyword : string) (chat_ids : list string)
    (min_price max_price : option Z) (w : World) : World * result unit :=
  match fuel with
  | O => (w, Ok tt)
  | S fuel' =>
      match monitor_iteration cfg env n location keyword chat_ids
              min_price max_price w with
      | (w', Ok _) =>
          while_true fuel' cfg env (S n) location keyword chat_ids
            min_price max_price w'
      | (w', Raise e) => (w', Raise e)
      end
  end.

(** [monitor_keyword], observed after at most [fuel] iterations: the
    outer [try] returns on [asyncio.CancelledError]. *)
Definition monitor_keyword (fuel : nat) (cfg : Config) (env : Env)
    (location keyword : string) (chat_ids : list string)
    (min_price max_price : option Z) (w : World) : World * TaskStatus :=
  match while_true fuel cfg env 0 location keyword chat_ids
          min_price max_price w with
  | (w', Ok _) => (w', Looping)
  | (w', Raise CancelledError) => ((print LogCancelled w').1, Returned)
  | (w', Raise e) => (w', Failed e)
  end.

(** ** One-shot scan *)

Record ScanRequest := {
  sr_location : string;
  sr_keyword : string;
  sr_days : Z;
  sr_min_price : option Z;
  sr_max_price : option Z
}.

Inductive ScanResponse :=
  | ScanSuccess (sent_count : nat) (sent_ids : list string)
  | ScanError (detail : exn).

(** [id["id"]]: [id] is the builtin function, never rebound in the module;
    subscripting it raises [TypeError]. *)
Definition builtin_id_getitem (key : string) : result string :=
  Raise TypeError.

(** The body of [for it in results] in [scan_products], threading
    [sent_items]. *)
Definition scan_item (cfg : Config) (env : Env) (req : ScanRequest)
    (cutoff_time : datetime) (it : Listing) (sent_items : list string)
    : M (list string) :=
  match it_pull_up_time_text it with
  | None => ret sent_items
  | Some pull_up_time =>
      recent ← lift (dt_ge pull_up_time cutoff_time);
      if (recent : bool) then
        price_int ← lift (price_to_int (it_price it));
        send_telegram cfg env (it_id it) (DEFAULT_CHAT_IDS cfg)
          (notification_text (sr_keyword req) it price_int
             (Some pull_up_time));;
        sent ← lift (builtin_id_getitem "id");
        ret (sent_items ++ [sent])%list
      else ret sent_items
  end.

Fixpoint scan_loop (cfg : Config) (env : Env) (req : ScanRequest)
    (cutoff_time : datetime) (results : list Listing)
    (sent_items : list string) : M (list string) :=
  match results with
  | [] => ret sent_items
  | it :: rest =>
      sent_items' ← scan_item cfg env req cutoff_time it sent_items;
      scan_loop cfg env req cutoff_time rest sent_items'
  end.

(** [scan_products]; [n] indexes its fetch, [now_kst] is the wall clock of
    [datetime.now(KST)]. *)
Definition scan_products (cfg : Config) (env : Env) (n : nat) (now_kst : Z)
    (req : ScanRequest) (w : World) : World * result ScanResponse :=
  match
    (results ← fetch_search_results env n (sr_location req) (sr_keyword req)
                 (sr_min_price req) (sr_max_price req);
     delta ← lift (timedelta_days (sr_days req));
     cutoff_time ← lift (dt_sub (Aware now_kst KST) delta);
     scan_loop cfg env req cutoff_time results []) w
  with
  | (w', Ok sent_items) => (w', Ok (ScanSuccess (length sent_items) sent_items))
  | (w', Raise e) =>
      if is_Exception e then (w', Ok (ScanError e)) else (w', Raise e)
  end.

(** ** Registry of monitor tasks *)

Record WatchRequest := {
  wr_location : string;
  wr_keyword : string;
  wr_min_price : option Z;
  wr_max_price : option Z
}.

(** [str(x)] for [x : Optional[int]] *)
Definition py_str (x : option Z) : string :=
  match x with
  | None => "None"
  | Some z => pretty z
  end.

(** [f"{req.location}:{req.keyword}:{req.min_price}:{req.max_price}"] *)
Definition filter_key (req : WatchRequest) : string :=
  wr_location req +:+ ":" +:+ wr_keyword req +:+ ":" +:+
  py_str (wr_min_price req) +:+ ":" +:+ py_str (wr_max_price req).

(** An asyncio task running [monitor_keyword]: its arguments and where it
    stands.  [TaskCancelling]: [cancel()] was called and the
    [CancelledError] is not delivered yet. *)
Inductive TaskState := TaskRunning | TaskCancelling | TaskDone.

Record Task := {
  task_location : string;
  task_keyword : string;
  task_chat_ids : list string;
  task_min_price : option Z;
  task_max_price : option Z;
  task_state : TaskState
}.

(** The tasks of the event loop live in [tasks]; [_monitor_tasks] refers to
    them by position, as the dict refers to the task objects. *)
Record Registry := {
  _monitor_tasks : gmap string nat;
  tasks : list Task
}.

Definition empty_registry : Registry :=
  {| _monitor_tasks := ∅; tasks := [] |}.

(** [task.done()] *)
Definition task_done (r : Registry) (t : nat) : bool :=
  match tasks r !! t with
  | Some tk => match task_state tk with TaskDone => true | _ => false end
  | None => true
  end.

(** [task.cancel()]: requests the cancellation of a task that is not
    done, and returns. *)
Definition cancel_state (tk : Task) : Task :=
  {| task_location := task_location tk; task_keyword := task_keyword tk;
     task_chat_ids := task_chat_ids tk; task_min_price := task_min_price tk;
     task_max_price := task_max_price tk;
     task_state := match task_state tk with
                   | TaskDone => TaskDone
                   | _ => TaskCancelling
                   end |}.

Definition task_cancel (r : Registry) (t : nat) : Registry :=
  {| _monitor_tasks := _monitor_tasks r;
     tasks := alter cancel_state t (tasks r) |}.

(** The event loop delivers a requested cancellation at the next
    suspension point of the task; [monitor_keyword] catches it and
    returns. *)
Definition finish_state (tk : Task) : Task :=
  {| task_location := task_location tk; task_keyword := task_keyword tk;
     task_chat_ids := task_chat_ids tk; task_min_price := task_min_price tk;
     task_max_price := task_max_price tk;
     task_state := match task_state tk with
                   | TaskCancelling => TaskDone
                   | s => s
                   end |}.

Definition deliver_cancel (r : Registry) (t : nat) : Registry :=
  {| _monitor_tasks := _monitor_tasks r;
     tasks := alter finish_state t (tasks r) |}.

Inductive WatchResponse :=
  | AlreadyWatching
  | Watching (location keyword : string) (min_price max_price : option Z).

(** [key in _monitor_tasks and not _monitor_tasks[key].done()] *)
Definition live_under (r : Registry) (key : string) : bool :=
  match _monitor_tasks r !! key with
  | Some t => negb (task_done r t)
  | None => false
  end.

(** [loop.create_task(monitor_keyword(...))] followed by
    [_monitor_tasks[key] = task] *)
Definition create_task (r : Registry) (key : string) (cfg : Config)
    (req : WatchRequest) : Registry :=
  {| _monitor_tasks := <[key := length (tasks r)]> (_monitor_tasks r);
     tasks := tasks r ++
       [{| task_location := wr_location req; task_keyword := wr_keyword req;
           task_chat_ids := DEFAULT_CHAT_IDS cfg;
           task_min_price := wr_min_price req;
           task_max_price := wr_max_price req;
           task_state := TaskRunning |}] |}.

Definition watch (cfg : Config) (r : Registry) (req : WatchRequest)
    : Registry * WatchResponse :=
  let key := filter_key req in
  if live_under r key then (r, AlreadyWatching)
  else (create_task r key cfg req,
        Watching (wr_location req) (wr_keyword req)
          (wr_min_price req) (wr_max_price req)).

Inductive StopResponse := Stopping | NotFound.

Definition stop_watch (r : Registry) (req : WatchRequest)
    : Registry * StopResponse :=
  let key := filter_key req in
  match _monitor_tasks r !! key with
  | Some t => (task_cancel r t, Stopping)
  | None => (r, NotFound)
  end.

(** [s.split(":")] *)
Fixpoint split_colon (s : string) : list string :=
  match s with
  | EmptyString => [""]
  | String c s' =>
      if Ascii.eqb c (Ascii.Ascii false true false true true true false false) then "" :: split_colon s'
      else match split_colon s' with
           | [] => [String c ""]
           | h :: t => String c h :: t
           end
  end.

(** [loc, kw, *_ = key.split(":")]: fewer than two parts raise
    [ValueError]. *)
Definition unpack_key (key : string) : result (string * string) :=
  match split_colon key with
  | loc :: kw :: _ => Ok (loc, kw)
  | _ => Raise ValueError
  end.

Fixpoint active_loop (r : Registry) (items : list (string * nat))
    (res : gmap string (string * string))
    : result (gmap string (string * string)) :=
  match items with
  | [] => Ok res
  | (key, task) :: rest =>
      if negb (task_done r task) then
        match unpack_key key with
        | Ok (loc, kw) => active_loop r rest (<[key := (loc, kw)]> res)
        | Raise e => Raise e
        end
      else active_loop r rest res
  end.

(** [active_watches]: the live entries of [_monitor_tasks], each with the
    first two parts of its key. *)
Definition active_watches (r : Registry)
    : result (gmap string (string * string)) :=
  active_loop r (map_to_list (_monitor_tasks r)) ∅.

(** * Properties *)

(** ** Registry *)

Section registry.
Context (cfg : Config).
Implicit Types (r : Registry) (req : WatchRequest) (t : nat) (tk : Task).

Lemma task_done_alter_cancel r t t' :
  task_done (task_cancel r t) t' = task_done r t'.
Proof.
  unfold task_done, task_cancel; simpl.
  destruct (decide (t = t')) as [->|Hne].
  - rewrite list_lookup_alter_eq.
    destruct (tasks r !! t') as [tk|]; simpl; [|done].
    by destruct (task_state tk).
  - by rewrite list_lookup_alter_ne.
Qed.

Lemma create_task_lookup r key req :
  tasks (create_task r key cfg req) !! length (tasks r) =
  Some {| task_location := wr_location req; task_keyword := wr_keyword req;
          task_chat_ids := DEFAULT_CHAT_IDS cfg;
          task_min_price := wr_min_price req;
          task_max_price := wr_max_price req;
          task_state := TaskRunning |}.
Proof.
  simpl. rewrite lookup_app_r by lia. by rewrite Nat.sub_diag.
Qed.

Lemma create_task_live r key req :
  live_under (create_task r key cfg req) key = true.
Proof.
  unfold live_under. simpl. rewrite lookup_insert_eq.
  unfold task_done. by rewrite create_task_lookup.
Qed.

Lemma watch_live r req :
  live_under (watch cfg r req).1 (filter_key req) = true.
Proof.
  unfold watch. destruct (live_under r (filter_key req)) eqn:Hl; simpl.
  - done.
  - apply create_task_live.
Qed.

Lemma watch_again r req :
  watch cfg (watch cfg r req).1 req = ((watch cfg r req).1, AlreadyWatching).
Proof.
  unfold watch at 1. by rewrite watch_live.
Qed.

End registry.

(** The key under which a task was started. *)
Definition task_key (tk : Task) : string :=
  filter_key {| wr_location := task_location tk; wr_keyword := task_keyword tk;
                wr_min_price := task_min_price tk;
                wr_max_price := task_max_price tk |}.

(** Every task that is not done is the one registered under its key. *)
Definition live_registered (r : Registry) : Prop :=
  ∀ t tk, tasks r !! t = Some tk → task_state tk ≠ TaskDone →
          _monitor_tasks r !! task_key tk = Some t.

(** The registries that the control operations and the event loop build
    from the empty one. *)
Inductive reachable (cfg : Config) : Registry → Prop :=
  | reach_empty : reachable cfg empty_registry
  | reach_watch r req :
      reachable cfg r → reachable cfg (watch cfg r req).1
  | reach_stop r req :
      reachable cfg r → reachable cfg (stop_watch r req).1
  | reach_deliver r t :
      reachable cfg r → reachable cfg (deliver_cancel r t).

Lemma live_registered_alter (f : Task → Task) r t :
  (∀ tk, task_key (f tk) = task_key tk) →
  (∀ tk, task_state (f tk) ≠ TaskDone → task_state tk ≠ TaskDone) →
  live_registered r →
  live_registered
    {| _monitor_tasks := _monitor_tasks r; tasks := alter f t (tasks r) |}.
Proof.
  intros Hkey Hst Hr t' tk'. simpl.
  destruct (decide (t = t')) as [->|Hne].
  - rewrite list_lookup_alter_eq.
    destruct (tasks r !! t') as [tk|] eqn:Hlk; simpl; [|done].
    intros [= <-] Hlive. rewrite Hkey. apply Hr; auto.
  - rewrite list_lookup_alter_ne by done. apply Hr.
Qed.

Lemma live_registered_watch cfg r req :
  live_registered r → live_registered (watch cfg r req).1.
Proof.
  intros Hr. unfold watch.
  destruct (live_under r (filter_key req)) eqn:Hl; simpl; [done|].
  intros t tk. simpl. intros Hlk Hlive.
  destruct (decide (t < length (tasks r))%nat) as [Hlt|Hge].
  - rewrite lookup_app_l in Hlk by done.
    pose proof (Hr t tk Hlk Hlive) as Hreg.
    destruct (decide (filter_key req = task_key tk)) as [Heq|Hne].
    + exfalso. unfold live_under in Hl. rewrite Heq, Hreg in Hl.
      unfold task_done in Hl. rewrite Hlk in Hl.
      destruct (task_state tk); simpl in Hl; congruence.
    + by rewrite lookup_insert_ne.
  - rewrite lookup_app_r in Hlk by lia.
    destruct (t - length (tasks r))%nat as [|k] eqn:Hk; simpl in Hlk; [|done].
    injection Hlk as <-. unfold task_key; simpl.
    assert (t = length (tasks r)) as -> by lia.
    destruct req; simpl. apply lookup_insert_eq.
Qed.

Lemma reachable_live_registered cfg r :
  reachable cfg r → live_registered r.
Proof.
  induction 1 as [|r req _ IH|r req _ IH|r t _ IH].
  - intros t tk. simpl. by rewrite lookup_nil.
  - by apply live_registered_watch.
  - unfold stop_watch.
    destruct (_monitor_tasks r !! filter_key req) as [t|]; simpl; [|done].
    apply live_registered_alter; auto.
    intros tk. simpl. destruct (task_state tk); auto.
  - apply live_registered_alter; auto.
    intros tk. simpl. destruct (task_state tk); auto; congruence.
Qed.

(** C6: [watch] on a filter whose key has a live task answers
    [AlreadyWatching] and leaves the registry and the tasks as they are;
    otherwise it starts one task with the request's arguments and records
    it under the key.  Either way the key then has exactly one live
    monitor, the registered one, and a second identical call answers
    [AlreadyWatching] without spawning. *)
Theorem watch_idempotent_on_key cfg r req :
  reachable cfg r →
  let key := filter_key req in
  let r' := (watch cfg r req).1 in
  (if live_under r key
   then watch cfg r req = (r, AlreadyWatching)
   else (watch cfg r req).2 =
          Watching (wr_location req) (wr_keyword req)
            (wr_min_price req) (wr_max_price req) ∧
        _monitor_tasks r' = <[key := length (tasks r)]> (_monitor_tasks r) ∧
        tasks r' = (tasks r ++
          [{| task_location := wr_location req;
              task_keyword := wr_keyword req;
              task_chat_ids := DEFAULT_CHAT_IDS cfg;
              task_min_price := wr_min_price req;
              task_max_price := wr_max_price req;
              task_state := TaskRunning |}])%list) ∧
  watch cfg r' req = (r', AlreadyWatching) ∧
  ∃ t, _monitor_tasks r' !! key = Some t ∧ task_done r' t = false ∧
       ∀ t' tk, tasks r' !! t' = Some tk → task_state tk ≠ TaskDone →
                task_key tk = key → t' = t.
Proof.
  intros Hreach key r'. split; [|split].
  - subst r'. unfold watch. fold key.
    destruct (live_under r key); simpl; auto.
  - apply watch_again.
  - pose proof (watch_live cfg r req) as Hlive. fold key r' in Hlive.
    unfold live_under in Hlive.
    destruct (_monitor_tasks r' !! key) as [t|] eqn:Hreg; [|done].
    exists t. split; [done|]. split; [by destruct (task_done r' t)|].
    intros t' tk Hlk Hst Hkey.
    pose proof (reachable_live_registered cfg r' (reach_watch cfg r req Hreach)
                  t' tk Hlk Hst) as Hreg'.
    rewrite Hkey in Hreg'. congruence.
Qed.

Lemma watch_idempotent_on_key_witness :
  let req := {| wr_location := "Seoul"; wr_keyword := "bike";
                wr_min_price := None; wr_max_price := Some 50000 |} in
  let cfg := {| DEFAULT_CHAT_IDS := ["42"]; POLL_INTERVAL := 20;
                startup_now := 0 |} in
  let r' := (watch cfg empty_registry req).1 in
  watch cfg r' req = (r', AlreadyWatching) ∧ length (tasks r') = 1%nat.
Proof.
  intros req cfg r'. split.
  - exact (proj1 (proj2 (watch_idempotent_on_key cfg empty_registry req
                           (reach_empty cfg)))).
  - reflexivity.
Defined.

(** C7: [stop_watch] answers [NotFound] and changes nothing when no task
    is registered under the filter's key; when one is, it answers
    [Stopping] after [cancel()] alone: the registration stays, and a task
    that was not done is left with its cancellation requested, not
    done. *)
Theorem stop_watch_requests_cancellation r req :
  match _monitor_tasks r !! filter_key req with
  | None => stop_watch r req = (r, NotFound)
  | Some t =>
      stop_watch r req = (task_cancel r t, Stopping) ∧
      _monitor_tasks (task_cancel r t) = _monitor_tasks r ∧
      task_done (task_cancel r t) t = task_done r t ∧
      (∀ tk, tasks r !! t = Some tk → task_state tk ≠ TaskDone →
             task_state <$> tasks (task_cancel r t) !! t = Some TaskCancelling) ∧
      (∀ t', t' ≠ t → tasks (task_cancel r t) !! t' = tasks r !! t')
  end.
Proof.
  unfold stop_watch.
  destruct (_monitor_tasks r !! filter_key req) as [t|]; [|done].
  split; [done|]. split; [done|]. split; [apply task_done_alter_cancel|].
  split.
  - intros tk Hlk Hst. simpl. rewrite list_lookup_alter_eq, Hlk. simpl.
    by destruct (task_state tk).
  - intros t' Hne. simpl. by rewrite list_lookup_alter_ne.
Qed.

(** Two filters with different fields and one key. *)
Definition filter_ab_c : WatchRequest :=
  {| wr_location := "a:b"; wr_keyword := "c";
     wr_min_price := None; wr_max_price := None |}.
Definition filter_a_bc : WatchRequest :=
  {| wr_location := "a"; wr_keyword := "b:c";
     wr_min_price := None; wr_max_price := None |}.

Lemma active_loop_ext r r' items res :
  (∀ t, task_done r t = task_done r' t) →
  active_loop r items res = active_loop r' items res.
Proof.
  intros Hd. revert res.
  induction items as [|[key t] rest IH]; intros res; simpl; [done|].
  rewrite Hd. destruct (task_done r' t); simpl; [apply IH|].
  destruct (unpack_key key) as [[loc kw]|e]; [apply IH|done].
Qed.

Lemma task_done_create r key cfg req req' t :
  task_done (create_task r key cfg req) t =
  task_done (create_task r key cfg req') t.
Proof.
  unfold task_done; simpl.
  destruct (decide (t < length (tasks r))%nat).
  - by rewrite !lookup_app_l.
  - rewrite !lookup_app_r by lia.
    by destruct (t - length (tasks r))%nat.
Qed.

(** C10: [filter_key] is not injective.  The filters (a:b, c) and (a, b:c)
    differ and share the key a:b:c:None:None; once the first is watched,
    [watch] on the second answers [AlreadyWatching] and spawns nothing;
    [stop_watch] and [active_watches] act alike on both, and the listing
    of active watches shows location a and keyword b, which is neither
    filter. *)
Theorem filter_key_collision :
  filter_ab_c ≠ filter_a_bc ∧
  filter_key filter_ab_c = filter_key filter_a_bc ∧
  (∀ cfg r, let r1 := (watch cfg r filter_ab_c).1 in
            watch cfg r1 filter_a_bc = (r1, AlreadyWatching)) ∧
  (∀ r, stop_watch r filter_a_bc = stop_watch r filter_ab_c) ∧
  (∀ cfg r, active_watches (watch cfg r filter_a_bc).1 =
            active_watches (watch cfg r filter_ab_c).1) ∧
  (∀ cfg, active_watches (watch cfg empty_registry filter_ab_c).1 =
          Ok {[ "a:b:c:None:None" := ("a", "b") ]}).
Proof.
  assert (filter_key filter_ab_c = filter_key filter_a_bc) as Hk
    by reflexivity.
  split; [discriminate|]. split; [done|]. split; [|split; [|split]].
  - intros cfg r r1. pose proof (watch_live cfg r filter_ab_c) as Hl.
    fold r1 in Hl. rewrite Hk in Hl. unfold watch. by rewrite Hl.
  - intros r. unfold stop_watch. by rewrite Hk.
  - intros cfg r. unfold watch. rewrite Hk.
    destruct (live_under r (filter_key filter_a_bc)); simpl; [done|].
    unfold active_watches. simpl.
    apply active_loop_ext. intros t. apply task_done_create.
  - intros cfg. vm_compute. reflexivity.
Qed.

(** ** Ledger *)

Ltac run :=
  repeat progress
    (unfold mbind, M_bind, mret, M_ret, bind, ret, lift, raise, try_except;
     cbn beta iota zeta delta [fst snd negb for_each scan_loop]).

Ltac unfold_monad :=
  unfold mbind, M_bind, bind, mret, M_ret, ret, lift, raise, try_except in *.

Section ledger.
Implicit Types (t : list Row) (i : string) (w : World).

Lemma count_id_app i t1 t2 :
  count_id i (t1 ++ t2) = (count_id i t1 + count_id i t2)%nat.
Proof. unfold count_id. by rewrite filter_app, length_app. Qed.

Lemma count_id_single i r :
  count_id i [r] = if has_id i r then 1%nat else 0%nat.
Proof.
  unfold count_id, has_id. rewrite filter_cons, filter_nil.
  destruct (decide (r_id r = i)) as [H|H].
  - by rewrite bool_decide_eq_true_2.
  - by rewrite bool_decide_eq_false_2.
Qed.

Lemma existsb_has_id_false i t :
  existsb (has_id i) t = false ↔ i ∉ map r_id t.
Proof.
  induction t as [|r t IH]; simpl.
  - split; [intros _; apply not_elem_of_nil|done].
  - rewrite orb_false_iff, IH, not_elem_of_cons. unfold has_id.
    rewrite bool_decide_eq_false. split; intros [? ?]; split; auto.
Qed.



Lemma insert_or_ignore_pk r w :
  pk_unique w → pk_unique (insert_or_ignore r w).1.
Proof.
  unfold pk_unique, insert_or_ignore; simpl. intros Hnd.
  destruct (existsb (has_id (r_id r)) (product_table w)) eqn:Hex; [done|].
  rewrite map_app. simpl. apply NoDup_app. split; [done|]. split.
  - intros x Hx. rewrite list_elem_of_singleton. intros ->.
    by apply existsb_has_id_false in Hex.
  - apply NoDup_singleton.
Qed.



(** [mark_product] never raises: its [except Exception] takes whatever
    the conversion of the price or the binding of the parameters raises. *)
Lemma mark_product_returns i kw ti de pr se lo ur w :
  (mark_product i kw ti de pr se lo ur w).2 = Ok tt.
Proof.
  unfold mark_product, price_to_int, bind_integer. unfold_monad.
  destruct (price_truthy pr); [destruct (price_int_float pr) as [z| | |]|];
    simpl; try done; by destruct (fits_int64 _).
Qed.

Lemma mark_product_table i kw ti de pr se lo ur w :
  product_table (mark_product i kw ti de pr se lo ur w).1 =
  match price_to_int pr with
  | Ok p =>
      if fits_int64 p && negb (in_ledger i w)
      then product_table w ++
           [{| r_id := i; r_keyword := kw; r_title := ti;
               r_description := de; r_price := p; r_seller := se;
               r_location := lo; r_url := ur |}]
      else product_table w
  | Raise _ => product_table w
  end.
Proof.
  unfold mark_product, price_to_int, bind_integer, in_ledger. unfold_monad.
  destruct (price_truthy pr); [destruct (price_int_float pr) as [z| | |]|];
    simpl; try done.
  - destruct (fits_int64 z); simpl; [|done].
    by destruct (existsb _ _).
  - by destruct (existsb _ _).
Qed.

Lemma mark_product_calls i kw ti de pr se lo ur w :
  telegram_calls (mark_product i kw ti de pr se lo ur w).1 =
  telegram_calls w.
Proof.
  unfold mark_product, price_to_int, bind_integer. unfold_monad.
  destruct (price_truthy pr); [destruct (price_int_float pr) as [z| | |]|];
    simpl; try done; by destruct (fits_int64 _).
Qed.

Lemma mark_product_sleeps i kw ti de pr se lo ur w :
  sleeps (mark_product i kw ti de pr se lo ur w).1 = sleeps w.
Proof.
  unfold mark_product, price_to_int, bind_integer. unfold_monad.
  destruct (price_truthy pr); [destruct (price_int_float pr) as [z| | |]|];
    simpl; try done; by destruct (fits_int64 _).
Qed.

Lemma price_to_int_raises pr e :
  price_to_int pr = Raise e → is_Exception e = true.
Proof.
  unfold price_to_int.
  destruct (price_truthy pr); [destruct (price_int_float pr)|];
    by intros [= <-].
Qed.

End ledger.




(** ** Notifier *)

(** The notifier returns: opening the session does not raise and no post
    is interrupted by a cancellation.  A post may still fail with any
    [Exception] (a delivery failure). *)
Definition notifier_returns (env : Env) : Prop :=
  (∀ n, env_session env n = None) ∧
  (∀ n c, env_post env n c ≠ Raise CancelledError).

(** [w'] differs from [w] in its log at most. *)
Definition same_store (w w' : World) : Prop :=
  product_table w' = product_table w ∧
  telegram_calls w' = telegram_calls w ∧
  sleeps w' = sleeps w.

Section notifier.
Context (cfg : Config) (env : Env).

Lemma same_store_refl w : same_store w w.
Proof. by repeat split. Qed.

Lemma same_store_trans w1 w2 w3 :
  same_store w1 w2 → same_store w2 w3 → same_store w1 w3.
Proof. unfold same_store. intros (?&?&?) (?&?&?). repeat split; congruence. Qed.

Lemma send_to_one_store n c w : same_store w (send_to_one env n c w).1.
Proof.
  unfold send_to_one, print. unfold_monad.
  destruct (env_post env n c) as [resp|e]; simpl; [apply same_store_refl|].
  destruct (is_Exception e); simpl; by repeat split.
Qed.

Lemma send_to_one_returns n c w :
  env_post env n c ≠ Raise CancelledError →
  ∃ o, (send_to_one env n c w).2 = Ok o.
Proof.
  intros Hc. unfold send_to_one, print. unfold_monad.
  destruct (env_post env n c) as [resp|e]; simpl; [by exists (Some resp)|].
  destruct e; simpl; by exists None.
Qed.

Lemma run_in_order_store {A} (coros : list (M A)) order rs w :
  (∀ i c w0, coros !! i = Some c → same_store w0 (c w0).1) →
  same_store w (run_in_order coros order rs w).1.
Proof.
  intros Hc. revert rs w.
  induction order as [|i order IH]; intros rs w; simpl.
  - apply same_store_refl.
  - destruct (coros !! i) as [c|] eqn:Hi; [|apply IH].
    unfold mbind, M_bind, bind.
    pose proof (Hc i c w Hi) as Hs.
    destruct (c w) as [w1 [r|e]]; simpl in *; [|done].
    eapply same_store_trans; [exact Hs|apply IH].
Qed.

Lemma run_in_order_returns {A} (coros : list (M A)) order rs w :
  (∀ i c w0, coros !! i = Some c → ∃ a, (c w0).2 = Ok a) →
  ∃ m, (run_in_order coros order rs w).2 = Ok m.
Proof.
  intros Hc. revert rs w.
  induction order as [|i order IH]; intros rs w; simpl.
  - by eexists.
  - destruct (coros !! i) as [c|] eqn:Hi; [|apply IH].
    unfold mbind, M_bind, bind.
    destruct (Hc i c w Hi) as [a Ha].
    destruct (c w) as [w1 r1]; simpl in *; subst r1. apply IH.
Qed.

Lemma gather_store lat n cs w :
  same_store w (gather lat (map (send_to_one env n) cs) w).1.
Proof.
  unfold gather. unfold mbind, M_bind, bind.
  pose proof (run_in_order_store (map (send_to_one env n) cs)
    (completion_order lat (length (map (send_to_one env n) cs))) ∅ w) as Hs.
  destruct (run_in_order _ _ _ w) as [w1 [m|e]]; simpl in *; apply Hs.
  all: intros i c w0 Hi; apply list_lookup_fmap_Some in Hi as (x & -> & _).
  all: apply send_to_one_store.
Qed.

Lemma gather_returns lat n cs w :
  (∀ c, env_post env n c ≠ Raise CancelledError) →
  ∃ os, (gather lat (map (send_to_one env n) cs) w).2 = Ok os.
Proof.
  intros Hc. unfold gather. unfold mbind, M_bind, bind.
  destruct (run_in_order_returns (map (send_to_one env n) cs)
    (completion_order lat (length (map (send_to_one env n) cs))) ∅ w)
    as [m Hm].
  { intros i c w0 Hi. apply list_lookup_fmap_Some in Hi as (x & -> & _).
    by apply send_to_one_returns. }
  destruct (run_in_order _ _ _ w) as [w1 r1]; simpl in *; subst r1.
  by eexists.
Qed.

(** What a call of [send_telegram] leaves: the ledger and sleeps as they
    were, and the call added to the notifier's traffic. *)
Lemma send_telegram_store item chats text w :
  let w' := (send_telegram cfg env item chats text w).1 in
  product_table w' = product_table w ∧
  sleeps w' = sleeps w ∧
  telegram_calls w' = telegram_calls w ++
    [{| tc_item := item;
        tc_chat_ids := if bool_decide (chats = []) then DEFAULT_CHAT_IDS cfg
                       else chats;
        tc_text := text |}].
Proof.
  unfold send_telegram, record_call, open_session.
  unfold mbind, M_bind, bind at 1. simpl.
  unfold bind at 1.
  destruct (env_session env (length (telegram_calls w))) as [e|]; simpl.
  - done.
  - match goal with |- context [gather ?lat ?l ?w0] =>
      pose proof (gather_store lat (length (telegram_calls w))
        (if bool_decide (chats = []) then DEFAULT_CHAT_IDS cfg else chats)
        w0) as Hs
    end.
    destruct Hs as (Ht & Hc & Hsl).
    repeat split; [exact Ht|exact Hsl|exact Hc].
Qed.

Lemma send_telegram_returns item chats text w :
  notifier_returns env →
  ∃ rs, (send_telegram cfg env item chats text w).2 = Ok rs.
Proof.
  intros [Hses Hpost].
  unfold send_telegram, record_call, open_session.
  unfold mbind, M_bind, bind at 1. simpl. unfold bind at 1.
  rewrite Hses. simpl. apply gather_returns. apply Hpost.
Qed.

Lemma send_telegram_raises item chats text w e :
  env_session env (length (telegram_calls w)) = Some e →
  (send_telegram cfg env item chats text w).2 = Raise e.
Proof.
  intros Hses.
  unfold send_telegram, record_call, open_session.
  unfold mbind, M_bind, bind at 1. simpl. unfold bind at 1.
  by rewrite Hses.
Qed.

End notifier.

(** ** Code that does not touch the ledger *)

Arguments dt_sub : simpl never.
Arguments dt_ge : simpl never.
Arguments dt_gt : simpl never.
Arguments timedelta_days : simpl never.
Arguments price_to_int : simpl never.

Definition with_table (t : list Row) (w : World) : World :=
  {| product_table := t; telegram_calls := telegram_calls w;
     sleeps := sleeps w; log := log w |}.

(** [m] neither reads nor writes [product_table]: run from any other
    table, it gives the same result and the same world, that table left
    in place. *)
Definition ledger_blind {A} (m : M A) : Prop :=
  ∀ t w, m (with_table t w) = (with_table t (m w).1, (m w).2).

Section ledger_blind.
Context (cfg : Config) (env : Env).

Lemma blind_lift {A} (r : result A) : ledger_blind (lift r).
Proof. by intros t w. Qed.

Lemma blind_ret {A} (a : A) : ledger_blind (mret a : M A).
Proof. by intros t w. Qed.

Lemma blind_raise {A} (e : exn) : ledger_blind (raise e : M A).
Proof. by intros t w. Qed.

Lemma blind_print l : ledger_blind (print l).
Proof. by intros t w. Qed.

Lemma blind_record_call c : ledger_blind (record_call c).
Proof. by intros t w. Qed.

Lemma blind_sleep secs : ledger_blind (sleep env secs).
Proof. by intros t w. Qed.

Lemma blind_bind {A B} (m : M A) (k : A → M B) :
  ledger_blind m → (∀ a, ledger_blind (k a)) → ledger_blind (m ≫= k).
Proof.
  intros Hm Hk t w. unfold mbind, M_bind, bind. rewrite Hm.
  destruct (m w) as [w1 [a|e]]; simpl; [apply Hk|done].
Qed.

Lemma blind_try_except {A} (m : M A) (h : exn → M A) :
  ledger_blind m → (∀ e, ledger_blind (h e)) →
  ledger_blind (try_except m h).
Proof.
  intros Hm Hh t w. unfold try_except. rewrite Hm.
  destruct (m w) as [w1 [a|e]]; simpl; [done|].
  destruct (is_Exception e); [apply Hh|done].
Qed.

Lemma blind_send_to_one n c : ledger_blind (send_to_one env n c).
Proof.
  apply blind_try_except.
  - apply blind_bind; [apply blind_lift|intros; apply blind_ret].
  - intros e. apply blind_bind; [apply blind_print|intros; apply blind_ret].
Qed.

Lemma blind_run_in_order {A} (coros : list (M A)) order rs :
  Forall ledger_blind coros → ledger_blind (run_in_order coros order rs).
Proof.
  intros Hc. revert rs. induction order as [|i order IH]; intros rs; simpl.
  - apply blind_ret.
  - destruct (coros !! i) as [c|] eqn:Hi; [|apply IH].
    apply blind_bind; [|intros r; apply IH].
    by apply (proj1 (Forall_lookup _ _) Hc i c).
Qed.

Lemma blind_gather {A} lat (coros : list (M A)) :
  Forall ledger_blind coros → ledger_blind (gather lat coros).
Proof.
  intros Hc. unfold gather.
  apply blind_bind; [by apply blind_run_in_order|].
  intros m. apply blind_ret.
Qed.

Lemma blind_send_telegram item chats text :
  ledger_blind (send_telegram cfg env item chats text).
Proof.
  intros t w. unfold send_telegram.
  change (telegram_calls (with_table t w)) with (telegram_calls w).
  match goal with |- ?m _ = _ => assert (ledger_blind m) as Hb end;
    [|apply Hb].
  apply blind_bind; [apply blind_record_call|]. intros _.
  apply blind_bind.
  - unfold open_session. destruct (env_session env _);
      [apply blind_raise|apply blind_ret].
  - intros _. apply blind_gather. apply Forall_map, Forall_forall.
    intros c _. apply blind_send_to_one.
Qed.

Lemma blind_scan_item req cutoff it sent :
  ledger_blind (scan_item cfg env req cutoff it sent).
Proof.
  unfold scan_item.
  destruct (it_pull_up_time_text it) as [d|]; [|apply blind_ret].
  apply blind_bind; [apply blind_lift|]. intros [|]; [|apply blind_ret].
  apply blind_bind; [apply blind_lift|]. intros p.
  apply blind_bind; [apply blind_send_telegram|]. intros _.
  apply blind_bind; [apply blind_lift|]. intros s. apply blind_ret.
Qed.

Lemma blind_scan_loop req cutoff results sent :
  ledger_blind (scan_loop cfg env req cutoff results sent).
Proof.
  revert sent. induction results as [|it rest IH]; intros sent; simpl.
  - apply blind_ret.
  - apply blind_bind; [apply blind_scan_item|]. intros s. apply IH.
Qed.

(** [scan_products] neither reads nor writes the ledger. *)
Lemma scan_products_ledger_blind n now_kst req t w :
  scan_products cfg env n now_kst req (with_table t w) =
  (with_table t (scan_products cfg env n now_kst req w).1,
   (scan_products cfg env n now_kst req w).2).
Proof.
  unfold scan_products.
  match goal with |- context [?m (with_table t w)] =>
    assert (ledger_blind m) as Hb end.
  { apply blind_bind; [apply blind_lift|]. intros results.
    apply blind_bind; [apply blind_lift|]. intros delta.
    apply blind_bind; [apply blind_lift|]. intros cutoff.
    apply blind_scan_loop. }
  rewrite Hb.
  match goal with |- context [?m w] => destruct (m w) as [w1 [s|e]] end;
    simpl; [done|]. by destruct (is_Exception e).
Qed.

Lemma scan_products_table n now_kst req w :
  product_table (scan_products cfg env n now_kst req w).1 = product_table w.
Proof.
  pose proof (scan_products_ledger_blind n now_kst req (product_table w) w)
    as Hb.
  assert (with_table (product_table w) w = w) as Hw by by destruct w.
  rewrite Hw in Hb.
  destruct (scan_products cfg env n now_kst req w) as [w1 r]; simpl in *.
  by injection Hb as ->.
Qed.

(** No listing ever gets into [sent_items]: the subscript on the builtin
    [id] raises before the append. *)
Lemma scan_item_sent req cutoff it sent w sent' :
  (scan_item cfg env req cutoff it sent w).2 = Ok sent' → sent' = sent.
Proof.
  unfold scan_item, builtin_id_getitem. unfold_monad.
  destruct (it_pull_up_time_text it) as [d|]; simpl; [|congruence].
  destruct (dt_ge d cutoff) as [[|]|e]; simpl; try congruence.
  destruct (price_to_int (it_price it)) as [p|e]; simpl; try congruence.
  destruct (send_telegram _ _ _ _ _ w) as [w1 [rs|e]]; simpl; congruence.
Qed.

Lemma scan_loop_sent req cutoff results sent w sent' :
  (scan_loop cfg env req cutoff results sent w).2 = Ok sent' →
  sent' = sent.
Proof.
  revert sent w. induction results as [|it rest IH]; intros sent w; simpl.
  - unfold mret, M_ret, ret. simpl. congruence.
  - unfold mbind, M_bind, bind.
    pose proof (scan_item_sent req cutoff it sent w) as Hi.
    destruct (scan_item cfg env req cutoff it sent w) as [w1 [s|e]];
      simpl in *; [|congruence].
    rewrite (Hi s eq_refl). apply IH.
Qed.

Lemma scan_products_success_empty n now_kst req w count ids :
  (scan_products cfg env n now_kst req w).2 = Ok (ScanSuccess count ids) →
  count = 0%nat ∧ ids = [].
Proof.
  unfold scan_products, fetch_search_results.
  unfold mbind, M_bind, bind at 1. unfold lift at 1.
  destruct (env_fetch env n) as [results|e]; simpl;
    [|destruct (is_Exception e); simpl; congruence].
  unfold bind at 1. unfold lift at 1.
  destruct (timedelta_days (sr_days req)) as [delta|e]; simpl;
    [|destruct (is_Exception e); simpl; congruence].
  unfold bind at 1. unfold lift at 1.
  destruct (dt_sub (Aware now_kst KST) delta) as [cutoff|e]; simpl;
    [|destruct (is_Exception e); simpl; congruence].
  pose proof (scan_loop_sent req cutoff results [] w) as Hs.
  destruct (scan_loop cfg env req cutoff results [] w) as [w1 [s|e]];
    simpl in *; [|destruct (is_Exception e); simpl; congruence].
  rewrite (Hs s eq_refl). intros [= <- <-]. done.
Qed.

End ledger_blind.

(** ** One-shot scan *)

Lemma dt_sub_aware w o d :
  0 ≤ w - d < datetime_range → dt_sub (Aware w o) d = Ok (Aware (w - d) o).
Proof.
  intros [Hlo Hhi]. unfold dt_sub.
  assert ((0 <=? w - d) && (w - d <? datetime_range) = true) as ->; [|done].
  apply andb_true_iff. split; [by apply Z.leb_le|by apply Z.ltb_lt].
Qed.

Ltac day_lia :=
  unfold instant, datetime_range, KST, us_per_day, us_per_second in *;
  change (86400 * 1000000 / 2) with 43200000000 in *; lia.

Lemma timedelta_one_day : timedelta_days 1 = Ok us_per_day.
Proof. reflexivity. Qed.

(** C1: a scan with [days=1] over a listing posted 2 days ago and one
    posted half a day ago does not answer success with [sent_count=1]: the
    recent listing is notified and then the subscript on the builtin [id]
    raises [TypeError], which the handler of [scan_products] turns into
    the error response.  The ledger is left as it was. *)
Theorem scan_products_recent_listing_error
    cfg env n now_kst req old new p w :
  sr_days req = 1 →
  us_per_day ≤ now_kst < datetime_range →
  env_fetch env n = Ok [old; new] →
  it_pull_up_time_text old = Some (Aware (now_kst - 2 * us_per_day) KST) →
  it_pull_up_time_text new = Some (Aware (now_kst - us_per_day / 2) KST) →
  price_to_int (it_price new) = Ok p →
  notifier_returns env →
  let out := scan_products cfg env n now_kst req w in
  out.2 = Ok (ScanError TypeError) ∧
  telegram_calls out.1 = telegram_calls w ++
    [{| tc_item := it_id new;
        tc_chat_ids := if bool_decide (DEFAULT_CHAT_IDS cfg = [])
                       then DEFAULT_CHAT_IDS cfg else DEFAULT_CHAT_IDS cfg;
        tc_text := notification_text (sr_keyword req) new p
                     (it_pull_up_time_text new) |}] ∧
  product_table out.1 = product_table w.
Proof.
  intros Hdays Hnow Hfetch Hold Hnew Hprice Hret out.
  split; [|split; [|apply scan_products_table]].
  all: subst out; unfold scan_products, fetch_search_results; run.
  all: rewrite Hfetch; run.
  all: rewrite Hdays, timedelta_one_day; run.
  all: rewrite dt_sub_aware by day_lia; run.
  all: unfold scan_item; rewrite Hold, Hnew; run.
  all: unfold dt_ge.
  all: assert ((instant (now_kst - us_per_day) KST <=?
                instant (now_kst - 2 * us_per_day) KST) = false) as ->
         by (apply Z.leb_gt; day_lia).
  all: assert ((instant (now_kst - us_per_day) KST <=?
                instant (now_kst - us_per_day / 2) KST) = true) as ->
         by (apply Z.leb_le; day_lia).
  all: run; rewrite Hprice; run.
  all: match goal with |- context [send_telegram ?a ?b ?c ?d ?e ?f] =>
         pose proof (send_telegram_store a b c d e f) as Hst;
         destruct (send_telegram_returns a b c d e f Hret) as [rs Hrs];
         destruct (send_telegram a b c d e f) as [w1 r1]
       end.
  all: simpl in Hrs, Hst; subst r1; unfold builtin_id_getitem; run.
  - done.
  - simpl. by destruct Hst as (_ & _ & ->).
Qed.

Lemma scan_products_recent_listing_error_witness :
  let cfg := {| DEFAULT_CHAT_IDS := ["42"]; POLL_INTERVAL := 20;
                startup_now := 739000 * us_per_day |} in
  let now_kst := 739003 * us_per_day in
  let free := {| price_truthy := false;
                 price_int_float := RaisesValueError |} in
  let listing i t :=
    {| it_id := i; it_title := "bike"; it_description := "";
       it_url := i; it_price := free; it_priceCurrency := "KRW";
       it_seller := "kim"; it_location := "Seoul";
       it_search_keyword := "bike";
       it_pull_up_time_text := Some (Aware t KST) |} in
  let old := listing "old" (now_kst - 2 * us_per_day) in
  let new := listing "new" (now_kst - us_per_day / 2) in
  let env := {| env_fetch := fun _ => Ok [old; new];
                env_session := fun _ => None;
                env_post := fun _ _ => Ok "ok";
                env_latency := fun _ i => i;
                env_sleep := fun _ => false |} in
  let req := {| sr_location := "Seoul"; sr_keyword := "bike"; sr_days := 1;
                sr_min_price := None; sr_max_price := None |} in
  let out := scan_products cfg env 0 now_kst req init_db in
  out.2 = Ok (ScanError TypeError) ∧
  notifications "new" out.1 = 1%nat ∧
  notifications "old" out.1 = 0%nat ∧
  product_table out.1 = [].
Proof.
  intros cfg now_kst free listing old new env req out.
  assert (notifier_returns env) as Hret by (by split).
  destruct (scan_products_recent_listing_error cfg env 0%nat now_kst req
              old new 0 init_db) as (Hres & Hcalls & Htable);
    [reflexivity|by vm_compute|reflexivity|reflexivity|reflexivity
    |reflexivity|exact Hret|].
  split; [exact Hres|]. split; [|split; [|exact Htable]].
  - unfold notifications. fold out in Hcalls. by rewrite Hcalls.
  - unfold notifications. fold out in Hcalls. by rewrite Hcalls.
Defined.

(** ** Monitor: one listing *)

Arguments newer_than : simpl never.

(** The listing passes every check that precedes [send_telegram]: posted
    after [server_start_time], not in the ledger, price convertible. *)
Definition notifies (cfg : Config) (it : Listing) (w : World) : bool :=
  match newer_than (it_pull_up_time_text it) (server_start_time cfg) with
  | Ok true =>
      negb (in_ledger (it_id it) w) &&
      match price_to_int (it_price it) with Ok _ => true | Raise _ => false end
  | _ => false
  end.

Definition row_of (keyword : string) (it : Listing) (p : Z) : Row :=
  {| r_id := it_id it; r_keyword := keyword; r_title := it_title it;
     r_description := it_description it; r_price := p;
     r_seller := it_seller it; r_location := it_location it;
     r_url := it_url it |}.

Section monitor_item.
Context (cfg : Config) (env : Env) (keyword : string) (chats : list string).

Let item := monitor_item cfg env keyword chats.

(** What [monitor_item] does, case by case. *)
Lemma monitor_item_spec it w :
  let w' := (item it w).1 in
  let r := (item it w).2 in
  if notifies cfg it w then
    ∃ p, price_to_int (it_price it) = Ok p ∧
      let text := notification_text keyword it p (it_pull_up_time_text it) in
      let sent := send_telegram cfg env (it_id it) chats text w in
      sleeps w' = sleeps w ∧
      telegram_calls w' = telegram_calls sent.1 ∧
      match sent.2 with
      | Ok _ =>
          r = Ok tt ∧
          product_table w' =
            if fits_int64 p then product_table w ++ [row_of keyword it p]
            else product_table w
      | Raise e =>
          r = (if is_Exception e then Ok tt else Raise e) ∧
          product_table w' = product_table w
      end
  else
    same_store w w' ∧
    match newer_than (it_pull_up_time_text it) (server_start_time cfg) with
    | Ok _ => r = Ok tt
    | Raise e => r = Raise e ∧ w' = w
    end.
Proof.
  unfold notifies, item, monitor_item, product_exists. run.
  destruct (newer_than _ _) as [[|]|e]; run;
    try (split; [apply same_store_refl|done]).
  fold (in_ledger (it_id it) w).
  destruct (in_ledger (it_id it) w) eqn:Hin; run;
    [split; [apply same_store_refl|done]|].
  destruct (price_to_int (it_price it)) as [p|e] eqn:Hp; run.
  - exists p. split; [done|].
    pose proof (send_telegram_store cfg env (it_id it) chats
      (notification_text keyword it p (it_pull_up_time_text it)) w)
      as (Ht & Hs & Hc).
    destruct (send_telegram cfg env (it_id it) chats _ w) as [w1 [rs|e]];
      simpl in Ht, Hs, Hc; run.
    + pose proof (mark_product_table (it_id it) keyword (it_title it)
        (it_description it) (it_price it) (it_seller it) (it_location it)
        (it_url it) w1) as Hmt.
      pose proof (mark_product_calls (it_id it) keyword (it_title it)
        (it_description it) (it_price it) (it_seller it) (it_location it)
        (it_url it) w1) as Hmc.
      pose proof (mark_product_returns (it_id it) keyword (it_title it)
        (it_description it) (it_price it) (it_seller it) (it_location it)
        (it_url it) w1) as Hmr.
      pose proof (mark_product_sleeps (it_id it) keyword (it_title it)
        (it_description it) (it_price it) (it_seller it) (it_location it)
        (it_url it) w1) as Hms.
      rewrite Hp in Hmt. unfold in_ledger in Hmt, Hin.
      rewrite Ht, Hin in Hmt. simpl in Hmt. rewrite andb_true_r in Hmt.
      destruct (mark_product _ _ _ _ _ _ _ _ w1) as [w2 r2];
        simpl in *; subst r2.
      unfold row_of. repeat split; simpl; congruence.
    + destruct (is_Exception e); simpl; repeat split; simpl; congruence.
  - rewrite (price_to_int_raises _ _ Hp).
    simpl. split; [by repeat split|done].
Qed.


End monitor_item.

(** ** Monitor: what a run keeps *)

(** Nothing about the id [i] changes between [w] and [w']: no new
    notification, no new row. *)
Definition keeps (i : string) (w w' : World) : Prop :=
  notifications i w' = notifications i w ∧
  in_ledger i w' = in_ledger i w ∧
  rows_with i w' = rows_with i w.

Lemma keeps_refl i w : keeps i w w.
Proof. by repeat split. Qed.

Lemma keeps_trans i w1 w2 w3 : keeps i w1 w2 → keeps i w2 w3 → keeps i w1 w3.
Proof. unfold keeps. intros (?&?&?) (?&?&?). repeat split; congruence. Qed.

Lemma same_store_keeps i w w' : same_store w w' → keeps i w w'.
Proof.
  intros (Ht & Hc & _). unfold keeps, notifications, in_ledger, rows_with.
  by rewrite Ht, Hc.
Qed.

Lemma notifications_snoc i w w' c :
  telegram_calls w' = telegram_calls w ++ [c] →
  notifications i w' =
  (notifications i w + if bool_decide (tc_item c = i) then 1 else 0)%nat.
Proof.
  intros Hc. unfold notifications. rewrite Hc, filter_app, length_app.
  f_equal. rewrite filter_cons, filter_nil.
  destruct (decide (tc_item c = i)).
  - by rewrite bool_decide_eq_true_2.
  - by rewrite bool_decide_eq_false_2.
Qed.

Lemma in_ledger_snoc i w w' r :
  product_table w' = product_table w ++ [r] →
  in_ledger i w' = in_ledger i w || has_id i r.
Proof.
  intros Ht. unfold in_ledger. rewrite Ht, existsb_app. simpl.
  by rewrite orb_false_r.
Qed.

Lemma rows_with_snoc i w w' r :
  product_table w' = product_table w ++ [r] →
  rows_with i w' = (rows_with i w + if has_id i r then 1 else 0)%nat.
Proof.
  intros Ht. unfold rows_with. by rewrite Ht, count_id_app, count_id_single.
Qed.


Section monitor_frames.
Context (cfg : Config) (env : Env) (keyword : string) (chats : list string).

Let item := monitor_item cfg env keyword chats.

(** A listing with another id, or one that does not pass the checks,
    changes nothing about [i]. *)
Lemma monitor_item_keeps i it w :
  it_id it ≠ i ∨ notifies cfg it w = false →
  keeps i w (item it w).1.
Proof.
  intros Hcase. pose proof (monitor_item_spec cfg env keyword chats it w) as Hs.
  cbv zeta in Hs. fold item in Hs.
  destruct (notifies cfg it w) eqn:Hn.
  - destruct Hcase as [Hne|?]; [|done].
    destruct Hs as (p & Hp & _ & Hcalls & Hres).
    pose proof (send_telegram_store cfg env (it_id it) chats
      (notification_text keyword it p (it_pull_up_time_text it)) w)
      as (_ & _ & Hc). rewrite Hc in Hcalls.
    unfold keeps. rewrite (notifications_snoc i _ _ _ Hcalls). simpl.
    rewrite bool_decide_eq_false_2 by done.
    destruct (send_telegram _ _ _ _ _ w).2 as [rs|e].
    + destruct Hres as [_ Ht]. destruct (fits_int64 p).
      * rewrite (in_ledger_snoc i _ _ _ Ht), (rows_with_snoc i _ _ _ Ht).
        unfold has_id, row_of; simpl.
        rewrite bool_decide_eq_false_2 by done.
        rewrite orb_false_r. repeat split; lia.
      * unfold in_ledger, rows_with. rewrite Ht. repeat split; lia.
    + destruct Hres as [_ Ht]. unfold in_ledger, rows_with.
      rewrite Ht. repeat split; lia.
  - destruct Hs as [Hs _]. by apply same_store_keeps.
Qed.

(** A listing in the ledger stays there. *)
Lemma monitor_item_in_ledger i it w :
  in_ledger i w = true → in_ledger i (item it w).1 = true.
Proof.
  intros Hin. pose proof (monitor_item_spec cfg env keyword chats it w) as Hs.
  cbv zeta in Hs. fold item in Hs.
  destruct (notifies cfg it w) eqn:Hn.
  - destruct Hs as (p & Hp & _ & _ & Hres).
    destruct (send_telegram _ _ _ _ _ w).2 as [rs|e]; destruct Hres as [_ Ht].
    + destruct (fits_int64 p).
      * by rewrite (in_ledger_snoc i _ _ _ Ht), Hin.
      * unfold in_ledger in *. by rewrite Ht.
    + unfold in_ledger in *. by rewrite Ht.
  - destruct Hs as [(Ht & _) _]. unfold in_ledger in *. by rewrite Ht.
Qed.




End monitor_frames.

(** ** Monitor: the loop *)

Lemma for_each_cons {A} (x : A) xs (body : A → M unit) w :
  for_each (x :: xs) body w =
  match body x w with
  | (w1, Ok _) => for_each xs body w1
  | (w1, Raise e) => (w1, Raise e)
  end.
Proof. reflexivity. Qed.


Lemma keeps_of_eq i w w' :
  product_table w' = product_table w →
  telegram_calls w' = telegram_calls w →
  keeps i w w'.
Proof.
  intros Ht Hc. unfold keeps, notifications, in_ledger, rows_with.
  by rewrite Ht, Hc.
Qed.

(** No listing with id [i] among [xs] was posted after
    [server_start_time]. *)
Definition silent_for (cfg : Config) (i : string) (xs : list Listing) : Prop :=
  ∀ x, x ∈ xs → it_id x = i →
       newer_than (it_pull_up_time_text x) (server_start_time cfg) ≠ Ok true.

Lemma notifies_in_ledger cfg it w :
  in_ledger (it_id it) w = true → notifies cfg it w = false.
Proof.
  intros Hin. unfold notifies. rewrite Hin.
  by destruct (newer_than _ _) as [[|]|].
Qed.

Lemma notifies_not_newer cfg it w :
  newer_than (it_pull_up_time_text it) (server_start_time cfg) ≠ Ok true →
  notifies cfg it w = false.
Proof.
  intros Hn. unfold notifies.
  by destruct (newer_than _ _) as [[|]|].
Qed.

Section monitor_loop.
Context (cfg : Config) (env : Env).
Context (location keyword : string) (chats : list string).
Context (min_price max_price : option Z).

Let results_loop := monitor_results cfg env keyword chats.
Let iteration n :=
  monitor_iteration cfg env n location keyword chats min_price max_price.

Lemma monitor_results_keeps i xs w :
  in_ledger i w = true ∨ silent_for cfg i xs →
  keeps i w (results_loop xs w).1.
Proof.
  unfold results_loop, monitor_results. revert w.
  induction xs as [|x xs IH]; intros w Hcase; [apply keeps_refl|].
  rewrite for_each_cons.
  assert (keeps i w (monitor_item cfg env keyword chats x w).1) as Hk.
  { apply monitor_item_keeps.
    destruct (decide (it_id x = i)) as [<-|Hne]; [right|by left].
    destruct Hcase as [Hin|Hsil].
    - by apply notifies_in_ledger.
    - apply notifies_not_newer, Hsil; [apply list_elem_of_here|done]. }
  destruct (monitor_item cfg env keyword chats x w) as [w1 [[]|e]];
    simpl in Hk; [|done].
  eapply keeps_trans; [exact Hk|]. apply IH.
  destruct Hcase as [Hin|Hsil].
  - left. destruct Hk as (_ & -> & _). done.
  - right. intros y Hy. apply Hsil. by apply list_elem_of_further.
Qed.

Lemma sleep_keeps i secs w : keeps i w (sleep env secs w).1.
Proof. by apply keeps_of_eq. Qed.

Lemma handler_keeps i e w :
  keeps i w ((print (LogLoopError e);; sleep env recovery_interval) w).1.
Proof. by apply keeps_of_eq. Qed.

Lemma monitor_iteration_keeps i n w :
  in_ledger i w = true ∨
    (∀ results, env_fetch env n = Ok results → silent_for cfg i results) →
  keeps i w (iteration n w).1.
Proof.
  intros Hcase.
  unfold iteration, monitor_iteration, iteration_body, fetch_search_results.
  unfold try_except. unfold mbind at 1, M_bind at 1, bind at 1, lift at 1.
  destruct (env_fetch env n) as [results|e] eqn:Hf.
  - unfold mbind at 1, M_bind at 1, bind at 1.
    assert (keeps i w (results_loop results w).1) as Hk.
    { apply monitor_results_keeps.
      destruct Hcase as [?|Hs]; [by left|right; by apply Hs]. }
    unfold results_loop in Hk.
    destruct (monitor_results cfg env keyword chats results w)
      as [w1 [[]|e]]; simpl in Hk.
    + pose proof (sleep_keeps i (POLL_INTERVAL cfg) w1) as Hs.
      assert (keeps i w (sleep env (POLL_INTERVAL cfg) w1).1) as Hk2
        by (eapply keeps_trans; [exact Hk|exact Hs]).
      destruct (sleep env (POLL_INTERVAL cfg) w1) as [w2 [[]|e]];
        simpl in Hk2 |- *; [done|].
      destruct (is_Exception e); [|exact Hk2].
      eapply keeps_trans; [exact Hk2|apply handler_keeps].
    + destruct (is_Exception e); [|exact Hk].
      eapply keeps_trans; [exact Hk|apply handler_keeps].
  - destruct (is_Exception e); [apply handler_keeps|apply keeps_refl].
Qed.

Lemma while_true_keeps i fuel n w :
  in_ledger i w = true ∨
    (∀ k results, env_fetch env k = Ok results → silent_for cfg i results) →
  keeps i w
    (while_true fuel cfg env n location keyword chats min_price max_price
       w).1.
Proof.
  revert n w. induction fuel as [|fuel IH]; intros n w Hcase; simpl.
  - apply keeps_refl.
  - assert (keeps i w (iteration n w).1) as Hk.
    { apply monitor_iteration_keeps. destruct Hcase as [?|Hs]; [by left|].
      right. apply Hs. }
    unfold iteration in Hk.
    destruct (monitor_iteration _ _ _ _ _ _ _ _ w) as [w1 [[]|e]];
      simpl in Hk; [|done].
    eapply keeps_trans; [exact Hk|]. apply IH.
    destruct Hcase as [Hin|?]; [left|by right].
    destruct Hk as (_ & -> & _). done.
Qed.

Lemma monitor_keyword_keeps i fuel w :
  in_ledger i w = true ∨
    (∀ k results, env_fetch env k = Ok results → silent_for cfg i results) →
  keeps i w
    (monitor_keyword fuel cfg env location keyword chats min_price
       max_price w).1.
Proof.
  intros Hcase. unfold monitor_keyword.
  pose proof (while_true_keeps i fuel 0 w Hcase) as Hk.
  destruct (while_true _ _ _ _ _ _ _ _ _ w) as [w1 [[]|e]]; simpl in Hk.
  - done.
  - by destruct e.
Qed.

End monitor_loop.

(** ** Monitor: lifting a relation along a run *)

(** A relation between worlds that every step of the monitor respects is
    respected by [monitor_keyword]; [P] is what is known of every listing
    that the source returns. *)
Section monitor_lift.
Context (cfg : Config) (env : Env).
Context (location keyword : string) (chats : list string).
Context (min_price max_price : option Z).
Context (R : World → World → Prop) (P : Listing → Prop).
Hypothesis R_refl : ∀ w, R w w.
Hypothesis R_trans : ∀ w1 w2 w3, R w1 w2 → R w2 w3 → R w1 w3.
Hypothesis R_frame : ∀ w w',
  product_table w' = product_table w → telegram_calls w' = telegram_calls w →
  R w w'.
Hypothesis R_item : ∀ it w,
  P it → R w (monitor_item cfg env keyword chats it w).1.
Hypothesis fetched_P : ∀ n results x,
  env_fetch env n = Ok results → x ∈ results → P x.

Lemma monitor_results_lift xs w :
  (∀ x, x ∈ xs → P x) →
  R w (monitor_results cfg env keyword chats xs w).1.
Proof.
  unfold monitor_results. revert w.
  induction xs as [|x xs IH]; intros w Hxs; [apply R_refl|].
  rewrite for_each_cons.
  pose proof (R_item x w (Hxs x ltac:(left))) as Hx.
  destruct (monitor_item cfg env keyword chats x w) as [w1 [[]|e]];
    simpl in Hx; [|done].
  eapply R_trans; [exact Hx|apply IH]. intros y Hy. apply Hxs. by right.
Qed.

Lemma monitor_iteration_lift n w :
  R w (monitor_iteration cfg env n location keyword chats min_price
         max_price w).1.
Proof.
  unfold monitor_iteration, iteration_body, fetch_search_results.
  unfold try_except. unfold mbind at 1, M_bind at 1, bind at 1, lift at 1.
  destruct (env_fetch env n) as [results|e] eqn:Hfetch.
  - unfold mbind at 1, M_bind at 1, bind at 1.
    pose proof (monitor_results_lift results w
                  (fun x Hx => fetched_P n results x Hfetch Hx)) as Hr.
    destruct (monitor_results cfg env keyword chats results w)
      as [w1 [[]|e]]; simpl in Hr.
    + assert (R w (sleep env (POLL_INTERVAL cfg) w1).1) as Hs
        by (eapply R_trans; [exact Hr|by apply R_frame]).
      destruct (sleep env (POLL_INTERVAL cfg) w1) as [w2 [[]|e]];
        simpl in Hs |- *; [done|].
      destruct (is_Exception e); [|exact Hs].
      eapply R_trans; [exact Hs|by apply R_frame].
    + destruct (is_Exception e); [|exact Hr].
      eapply R_trans; [exact Hr|by apply R_frame].
  - destruct (is_Exception e); [by apply R_frame|apply R_refl].
Qed.

Lemma while_true_lift fuel n w :
  R w (while_true fuel cfg env n location keyword chats min_price max_price
         w).1.
Proof.
  revert n w. induction fuel as [|fuel IH]; intros n w; simpl.
  - apply R_refl.
  - pose proof (monitor_iteration_lift n w) as Hi.
    destruct (monitor_iteration _ _ _ _ _ _ _ _ w) as [w1 [[]|e]];
      simpl in Hi; [|done].
    eapply R_trans; [exact Hi|apply IH].
Qed.

Lemma monitor_keyword_lift fuel w :
  R w (monitor_keyword fuel cfg env location keyword chats min_price
         max_price w).1.
Proof.
  unfold monitor_keyword. pose proof (while_true_lift fuel 0 w) as Hw.
  destruct (while_true _ _ _ _ _ _ _ _ _ w) as [w1 [[]|e]]; simpl in Hw.
  - done.
  - destruct e; try done. simpl.
    eapply R_trans; [exact Hw|by apply R_frame].
Qed.

End monitor_lift.

(** The calls made for [i] are never taken back. *)
Definition calls_grow (i : string) (w w' : World) : Prop :=
  (notifications i w ≤ notifications i w')%nat.

Lemma monitor_item_calls_grow cfg env keyword chats i it w :
  calls_grow i w (monitor_item cfg env keyword chats it w).1.
Proof.
  unfold calls_grow.
  pose proof (monitor_item_spec cfg env keyword chats it w) as Hs.
  cbv zeta in Hs. destruct (notifies cfg it w).
  - destruct Hs as (p & _ & _ & Hcalls & _).
    pose proof (send_telegram_store cfg env (it_id it) chats
      (notification_text keyword it p (it_pull_up_time_text it)) w)
      as (_ & _ & Hc). rewrite Hc in Hcalls.
    rewrite (notifications_snoc i _ _ _ Hcalls). lia.
  - destruct Hs as [(_ & Hc & _) _]. unfold notifications. by rewrite Hc.
Qed.

Lemma monitor_results_calls_grow cfg env keyword chats i xs w :
  calls_grow i w (monitor_results cfg env keyword chats xs w).1.
Proof.
  apply (monitor_results_lift cfg env keyword chats (calls_grow i)
           (fun _ => True)); [| | |done].
  - intros w0. unfold calls_grow. lia.
  - unfold calls_grow. intros w1 w2 w3 H1 H2. lia.
  - intros it w0 _. apply monitor_item_calls_grow.
Qed.

(** The calls that the first listing of a result got are there when the
    iteration ends, however it ends. *)
Lemma monitor_iteration_head_calls
    cfg env n location keyword chats min_price max_price i l rest w :
  env_fetch env n = Ok (l :: rest) →
  calls_grow i (monitor_item cfg env keyword chats l w).1
    (monitor_iteration cfg env n location keyword chats min_price max_price
       w).1.
Proof.
  intros Hf. unfold calls_grow.
  unfold monitor_iteration, iteration_body, fetch_search_results.
  unfold try_except. unfold mbind at 1, M_bind at 1, bind at 1, lift at 1.
  rewrite Hf. unfold mbind at 1, M_bind at 1, bind at 1.
  unfold monitor_results. rewrite for_each_cons.
  destruct (monitor_item cfg env keyword chats l w) as [w1 [[]|e]]; simpl.
  - pose proof (monitor_results_calls_grow cfg env keyword chats i rest w1)
      as Hr. unfold monitor_results, calls_grow in Hr.
    destruct (for_each rest (monitor_item cfg env keyword chats) w1)
      as [w2 [[]|e]]; simpl in Hr |- *.
    + unfold sleep, print. unfold_monad.
      destruct (env_sleep env (length (sleeps w2))); simpl; exact Hr.
    + destruct (is_Exception e); [|exact Hr].
      unfold sleep, print. unfold_monad.
      by destruct (env_sleep env _).
  - destruct (is_Exception e); [|done].
    unfold sleep, print. unfold_monad.
    by destruct (env_sleep env _).
Qed.

(** ** Server epoch *)

(** A sample listing. *)
Definition sample_listing (i : string) (posted : option datetime) : Listing :=
  {| it_id := i; it_title := "bike"; it_description := "as new";
     it_url := i; it_price := {| price_truthy := true;
                                 price_int_float := IntOf 15000 |};
     it_priceCurrency := "KRW"; it_seller := "kim"; it_location := "Seoul";
     it_search_keyword := "bike"; it_pull_up_time_text := posted |}.

(** Collaborators that never fail: every fetch returns [results]. *)
Definition steady_env (results : list Listing) : Env :=
  {| env_fetch := fun _ => Ok results;
     env_session := fun _ => None;
     env_post := fun _ _ => Ok "ok";
     env_latency := fun _ i => i;
     env_sleep := fun _ => false |}.

Definition sample_config : Config :=
  {| DEFAULT_CHAT_IDS := ["42"]; POLL_INTERVAL := default_POLL_INTERVAL;
     startup_now := 739000 * us_per_day |}.

(** C3 fails on the code.  [server_start_time] is the startup time minus
    three days (an offset that its comment calls a test setting), while the
    check is commented as letting through only what was uploaded after the
    server started.  So a listing posted within the three days before the
    start (one second before it, say) passes the check: when its id is not
    in the ledger and its price converts, the monitor iteration that
    fetches it at the head of a result notifies it. *)
Theorem listing_before_startup_is_notified
    cfg env n location keyword chats min_price max_price l rest w posted p :
  startup_now cfg - 3 * us_per_day < posted ≤ startup_now cfg →
  env_fetch env n = Ok (l :: rest) →
  it_pull_up_time_text l = Some (Aware posted KST) →
  in_ledger (it_id l) w = false →
  price_to_int (it_price l) = Ok p →
  notifies cfg l w = true ∧
  notifications (it_id l) (monitor_item cfg env keyword chats l w).1 =
    S (notifications (it_id l) w) ∧
  (notifications (it_id l) w <
   notifications (it_id l)
     (monitor_iteration cfg env n location keyword chats min_price max_price
        w).1)%nat.
Proof.
  intros [Hlo Hhi] Hf Hl Hin Hp.
  assert (notifies cfg l w = true) as Hn.
  { unfold notifies, newer_than, server_start_time, dt_gt, instant.
    rewrite Hl, Hin, Hp.
    assert ((startup_now cfg - 3 * us_per_day - KST <? posted - KST) = true)
      as -> by (apply Z.ltb_lt; lia). done. }
  split; [exact Hn|].
  assert (notifications (it_id l) (monitor_item cfg env keyword chats l w).1
          = S (notifications (it_id l) w)) as Hitem.
  { pose proof (monitor_item_spec cfg env keyword chats l w) as Hs.
    cbv zeta in Hs. rewrite Hn in Hs.
    destruct Hs as (p' & _ & _ & Hcalls & _).
    pose proof (send_telegram_store cfg env (it_id l) chats
      (notification_text keyword l p' (it_pull_up_time_text l)) w)
      as (_ & _ & Hc). rewrite Hc in Hcalls.
    rewrite (notifications_snoc _ _ _ _ Hcalls). simpl.
    rewrite bool_decide_eq_true_2 by done. lia. }
  split; [exact Hitem|].
  pose proof (monitor_iteration_head_calls cfg env n location keyword chats
                min_price max_price (it_id l) l rest w Hf) as Hg.
  unfold calls_grow in Hg. lia.
Qed.

Lemma listing_before_startup_is_notified_witness :
  let posted := startup_now sample_config - us_per_second in
  let l := sample_listing "A" (Some (Aware posted KST)) in
  posted ≤ startup_now sample_config ∧
  in_ledger "A" init_db = false ∧
  (notifications "A" init_db <
   notifications "A"
     (monitor_iteration sample_config (steady_env [l]) 0 "Seoul" "bike"
        ["42"] None None init_db).1)%nat.
Proof.
  intros posted l. split; [by vm_compute|]. split; [reflexivity|].
  refine (proj2 (proj2 (listing_before_startup_is_notified sample_config
                   (steady_env [l]) 0 "Seoul" "bike" ["42"] None None l []
                   init_db posted 15000 _ _ _ _ _))).
  - by vm_compute.
  - reflexivity.
  - reflexivity.
  - reflexivity.
  - reflexivity.
Defined.

(** X22: the lower bound that the code does enforce.  A listing posted at
    or before [server_start_time], which is the startup time minus three
    days, is never notified by a monitor, whatever the ledger holds and
    however long the monitor runs. *)
Theorem listing_before_epoch_never_notified
    cfg env fuel location keyword chats min_price max_price i w :
  (∀ n results x, env_fetch env n = Ok results → x ∈ results → it_id x = i →
     ∃ wall off, it_pull_up_time_text x = Some (Aware wall off) ∧
       instant wall off ≤ instant (startup_now cfg - 3 * us_per_day) KST) →
  notifications i
    (monitor_keyword fuel cfg env location keyword chats min_price max_price
       w).1 = notifications i w.
Proof.
  intros Hold.
  apply (monitor_keyword_keeps cfg env location keyword chats min_price
           max_price i fuel w).
  right. intros k results Hf x Hx Hi.
  destruct (Hold k results x Hf Hx Hi) as (wall & off & -> & Hle).
  unfold newer_than, server_start_time, dt_gt.
  intros [= Hlt]. apply Z.ltb_lt in Hlt. lia.
Qed.

Lemma listing_before_epoch_never_notified_witness :
  let posted := startup_now sample_config - 4 * us_per_day in
  let l := sample_listing "A" (Some (Aware posted KST)) in
  notifications "A"
    (monitor_keyword 3 sample_config (steady_env [l]) "Seoul" "bike" ["42"]
       None None init_db).1 = 0%nat.
Proof.
  intros posted l.
  apply (listing_before_epoch_never_notified sample_config (steady_env [l]) 3
           "Seoul" "bike" ["42"] None None "A" init_db).
  intros n results x [= <-] Hx _.
  apply list_elem_of_singleton in Hx as ->.
  exists posted, KST. split; [reflexivity|by vm_compute].
Defined.

(** ** Listings without a timestamp *)

(** C2 fails on the code: when the first fetched listing has no
    [pull_up_time_text], its comparison with [server_start_time] raises
    [TypeError] outside the per-listing [try]; the iteration logs it, sleeps
    the recovery interval and ends, and none of the remaining listings is
    looked at. *)
Theorem monitor_iteration_stops_at_missing_timestamp
    cfg env n location keyword chats min_price max_price x rest w :
  env_fetch env n = Ok (x :: rest) →
  it_pull_up_time_text x = None →
  (monitor_iteration cfg env n location keyword chats min_price max_price
     w).1 =
  {| product_table := product_table w;
     telegram_calls := telegram_calls w;
     sleeps := sleeps w ++ [recovery_interval];
     log := log w ++ [LogLoopError TypeError] |}.
Proof.
  intros Hf Hx.
  unfold monitor_iteration, iteration_body, fetch_search_results,
    monitor_results.
  unfold try_except. unfold mbind at 1, M_bind at 1, bind at 1, lift at 1.
  rewrite Hf. unfold mbind at 1, M_bind at 1, bind at 1.
  rewrite for_each_cons.
  unfold monitor_item at 1. rewrite Hx.
  unfold mbind at 1, M_bind at 1, bind at 1, lift at 1. simpl.
  unfold sleep, print. unfold_monad. simpl.
  by destruct (env_sleep env (length (sleeps w))).
Qed.

Lemma monitor_iteration_stops_at_missing_timestamp_witness :
  let posted := startup_now sample_config + us_per_second in
  let a := sample_listing "A" None in
  let b := sample_listing "B" (Some (Aware posted KST)) in
  let w := (monitor_iteration sample_config (steady_env [a; b]) 0 "Seoul"
              "bike" ["42"] None None init_db).1 in
  notifies sample_config b init_db = true ∧
  notifications "B" w = 0%nat ∧ rows_with "B" w = 0%nat ∧
  log w = [LogLoopError TypeError] ∧ sleeps w = [recovery_interval].
Proof.
  intros posted a b w.
  pose proof (monitor_iteration_stops_at_missing_timestamp sample_config
                (steady_env [a; b]) 0 "Seoul" "bike" ["42"] None None a [b]
                init_db eq_refl eq_refl) as Hw.
  fold w in Hw. rewrite Hw. by vm_compute.
Defined.

(** ** New listings: one notification, one row *)

Lemma newer_than_aware cfg wall off :
  instant (startup_now cfg - 3 * us_per_day) KST < instant wall off →
  newer_than (Some (Aware wall off)) (server_start_time cfg) = Ok true.
Proof.
  intros Hlt. unfold newer_than, server_start_time, dt_gt.
  f_equal. by apply Z.ltb_lt.
Qed.









(** ** Notify and insert *)

(** A call whose session opens and whose posts are not cancelled returns,
    also when every post fails with an [Exception]. *)
Lemma send_telegram_returns_at cfg env item chats text w :
  env_session env (length (telegram_calls w)) = None →
  (∀ c, env_post env (length (telegram_calls w)) c ≠ Raise CancelledError) →
  ∃ rs, (send_telegram cfg env item chats text w).2 = Ok rs.
Proof.
  intros Hses Hpost.
  unfold send_telegram, record_call, open_session.
  unfold mbind, M_bind, bind at 1. simpl. unfold bind at 1.
  rewrite Hses. simpl. by apply gather_returns.
Qed.





(** ** The loop and errors *)

(** No cancellation is ever delivered to the task: none of its awaits
    raises [CancelledError]. *)
Definition never_cancelled (env : Env) : Prop :=
  (∀ n, env_fetch env n ≠ Raise CancelledError) ∧
  (∀ n, env_session env n ≠ Some CancelledError) ∧
  (∀ n c, env_post env n c ≠ Raise CancelledError) ∧
  (∀ n, env_sleep env n = false).

Lemma is_Exception_true e : e ≠ CancelledError → is_Exception e = true.
Proof. by destruct e. Qed.

Lemma is_Exception_false e : is_Exception e = false → e = CancelledError.
Proof. by destruct e. Qed.

Section loop_errors.
Context (cfg : Config) (env : Env).
Context (location keyword : string) (chats : list string).
Context (min_price max_price : option Z).

Let body n :=
  iteration_body cfg env n location keyword chats min_price max_price.
Let iteration n :=
  monitor_iteration cfg env n location keyword chats min_price max_price.
Let task fuel :=
  monitor_keyword fuel cfg env location keyword chats min_price max_price.

Lemma send_telegram_not_cancelled item text w :
  never_cancelled env →
  (send_telegram cfg env item chats text w).2 ≠ Raise CancelledError.
Proof.
  intros (_ & Hses & Hpost & _).
  destruct (env_session env (length (telegram_calls w))) as [e|] eqn:He.
  - rewrite (send_telegram_raises cfg env item chats text w e He).
    intros [= ->]. by apply (Hses (length (telegram_calls w))).
  - destruct (send_telegram_returns_at cfg env item chats text w He)
      as [rs ->]; [apply Hpost|done].
Qed.

Lemma monitor_item_not_cancelled it w :
  never_cancelled env →
  (monitor_item cfg env keyword chats it w).2 ≠ Raise CancelledError.
Proof.
  intros Hnc. pose proof (monitor_item_spec cfg env keyword chats it w) as Hs.
  cbv zeta in Hs. destruct (notifies cfg it w).
  - destruct Hs as (p & _ & _ & _ & Hres).
    pose proof (send_telegram_not_cancelled (it_id it)
      (notification_text keyword it p (it_pull_up_time_text it)) w Hnc)
      as Hsent.
    destruct (send_telegram _ _ _ _ _ w).2 as [rs|e];
      destruct Hres as [-> _]; [done|].
    by rewrite is_Exception_true by congruence.
  - destruct Hs as [_ Hs].
    destruct (newer_than _ _) as [b|e] eqn:Hn.
    + by rewrite Hs.
    + destruct Hs as [-> _]. intros [= ->].
      unfold newer_than, server_start_time, dt_gt in Hn.
      by destruct (it_pull_up_time_text it) as [[? ?|?]|].
Qed.

Lemma monitor_results_not_cancelled xs w :
  never_cancelled env →
  (monitor_results cfg env keyword chats xs w).2 ≠ Raise CancelledError.
Proof.
  intros Hnc. unfold monitor_results. revert w.
  induction xs as [|x xs IH]; intros w; [done|].
  rewrite for_each_cons.
  pose proof (monitor_item_not_cancelled x w Hnc) as Hx.
  destruct (monitor_item cfg env keyword chats x w) as [w1 [[]|e]];
    [apply IH|done].
Qed.

Lemma iteration_body_not_cancelled n w :
  never_cancelled env → (body n w).2 ≠ Raise CancelledError.
Proof.
  intros Hnc. unfold body, iteration_body, fetch_search_results.
  unfold mbind at 1, M_bind at 1, bind at 1, lift at 1.
  destruct (env_fetch env n) as [results|e] eqn:Hf.
  - unfold mbind at 1, M_bind at 1, bind at 1.
    pose proof (monitor_results_not_cancelled results w Hnc) as Hr.
    destruct (monitor_results cfg env keyword chats results w)
      as [w1 [[]|e]]; [|done].
    unfold sleep. simpl. destruct Hnc as (_ & _ & _ & Hsl).
    by rewrite Hsl.
  - simpl. intros [= ->]. destruct Hnc as (Hfetch & _).
    by apply (Hfetch n).
Qed.

(** An [Exception] of the body is logged, followed by the recovery
    sleep; the iteration itself returns. *)
Lemma monitor_iteration_recovers n w w1 e :
  (∀ k, env_sleep env k = false) →
  body n w = (w1, Raise e) → is_Exception e = true →
  ∃ w2, iteration n w = (w2, Ok tt) ∧
        log w2 = log w1 ++ [LogLoopError e] ∧
        sleeps w2 = sleeps w1 ++ [recovery_interval].
Proof.
  intros Hsl Hb He. unfold iteration, monitor_iteration, try_except.
  fold (body n). rewrite Hb, He.
  unfold print, sleep. unfold_monad. simpl. rewrite Hsl. by eexists.
Qed.

Lemma monitor_iteration_returns n w :
  never_cancelled env → (iteration n w).2 = Ok tt.
Proof.
  intros Hnc. pose proof (iteration_body_not_cancelled n w Hnc) as Hb.
  destruct (body n w) as [w1 [[]|e]] eqn:Hbody.
  - unfold iteration, monitor_iteration, try_except. fold (body n).
    by rewrite Hbody.
  - destruct Hnc as (_ & _ & _ & Hsl).
    destruct (monitor_iteration_recovers n w w1 e Hsl Hbody) as (w2 & -> & _);
      [apply is_Exception_true; simpl in Hb; congruence|done].
Qed.

Lemma while_true_goes_on fuel n w :
  never_cancelled env →
  (while_true fuel cfg env n location keyword chats min_price max_price
     w).2 = Ok tt.
Proof.
  intros Hnc. revert n w. induction fuel as [|fuel IH]; intros n w; simpl.
  - done.
  - pose proof (monitor_iteration_returns n w Hnc) as Hi.
    unfold iteration in Hi.
    destruct (monitor_iteration _ _ _ _ _ _ _ _ w) as [w1 r]; simpl in Hi.
    subst r. apply IH.
Qed.

Lemma monitor_keyword_goes_on fuel w :
  never_cancelled env → (task fuel w).2 = Looping.
Proof.
  intros Hnc. unfold task, monitor_keyword.
  pose proof (while_true_goes_on fuel 0 w Hnc) as Hw.
  destruct (while_true _ _ _ _ _ _ _ _ _ w) as [w1 r]; simpl in Hw.
  by subst r.
Qed.

(** Whatever the collaborators do, an iteration ends by returning or by
    [CancelledError]. *)
Lemma monitor_iteration_ends n w :
  (iteration n w).2 = Ok tt ∨ (iteration n w).2 = Raise CancelledError.
Proof.
  unfold iteration, monitor_iteration, try_except.
  destruct (iteration_body _ _ _ _ _ _ _ _ w) as [w1 [[]|e]]; [by left|].
  destruct (is_Exception e) eqn:He.
  - unfold print, sleep. unfold_monad. simpl.
    destruct (env_sleep env _); [by right|by left].
  - right. simpl. by rewrite (is_Exception_false e He).
Qed.

Lemma monitor_keyword_ends fuel w :
  (task fuel w).2 = Looping ∨ (task fuel w).2 = Returned.
Proof.
  unfold task, monitor_keyword.
  assert (∀ n w0,
    (while_true fuel cfg env n location keyword chats min_price max_price
       w0).2 = Ok tt ∨
    (while_true fuel cfg env n location keyword chats min_price max_price
       w0).2 = Raise CancelledError) as Hw.
  { induction fuel as [|k IH]; intros n w0; simpl; [by left|].
    pose proof (monitor_iteration_ends n w0) as Hi. unfold iteration in Hi.
    destruct (monitor_iteration _ _ _ _ _ _ _ _ w0) as [w1 [[]|e]];
      simpl in Hi; [apply IH|].
    destruct Hi as [?|Hi]; [done|by right]. }
  specialize (Hw 0%nat w).
  destruct (while_true _ _ _ _ _ _ _ _ _ w) as [w1 [[]|e]]; simpl in Hw.
  - by left.
  - destruct Hw as [?|[= ->]]; [done|by right].
Qed.

End loop_errors.

(** C9: with no cancellation delivered, [monitor_keyword] is still looping
    after any number of iterations, whatever else its collaborators raise;
    an [Exception] raised in an iteration is logged and followed by a sleep
    of 5, less than the default poll interval of 20, and the iteration
    returns to the loop.  Whatever the collaborators do, the task never
    ends with an error: it is looping, or it has returned, and then a
    cancellation was delivered. *)
Theorem monitor_survives_errors
    cfg env location keyword chats min_price max_price :
  never_cancelled env →
  (∀ fuel w,
     (monitor_keyword fuel cfg env location keyword chats min_price max_price
        w).2 = Looping) ∧
  (∀ n w w1 e,
     iteration_body cfg env n location keyword chats min_price max_price w =
       (w1, Raise e) →
     ∃ w2,
       monitor_iteration cfg env n location keyword chats min_price
         max_price w = (w2, Ok tt) ∧
       log w2 = log w1 ++ [LogLoopError e] ∧
       sleeps w2 = sleeps w1 ++ [recovery_interval]) ∧
  recovery_interval = 5 ∧ default_POLL_INTERVAL = 20 ∧
  recovery_interval < default_POLL_INTERVAL ∧
  (∀ env' fuel w,
     let st := (monitor_keyword fuel cfg env' location keyword chats
                  min_price max_price w).2 in
     st = Looping ∨ (st = Returned ∧ ¬ never_cancelled env')).
Proof.
  intros Hnc. split; [|split; [|split; [|split; [|split]]]].
  - intros fuel w. by apply monitor_keyword_goes_on.
  - intros n w w1 e Hb.
    apply monitor_iteration_recovers; [by destruct Hnc as (_ & _ & _ & ?)|done|].
    apply is_Exception_true. intros ->.
    pose proof (iteration_body_not_cancelled cfg env location keyword chats
                  min_price max_price n w Hnc) as Hn.
    cbv beta zeta in Hn. by rewrite Hb in Hn.
  - reflexivity.
  - reflexivity.
  - reflexivity.
  - intros env' fuel w st.
    destruct (monitor_keyword_ends cfg env' location keyword chats min_price
                max_price fuel w) as [Hl|Hr]; [by left|right].
    split; [done|]. intros Hnc'.
    pose proof (monitor_keyword_goes_on cfg env' location keyword chats
                  min_price max_price fuel w Hnc') as Hl.
    congruence.
Qed.

Lemma monitor_survives_errors_witness :
  let a := sample_listing "A" None in
  let out := monitor_keyword 3 sample_config (steady_env [a]) "Seoul" "bike"
               ["42"] None None init_db in
  out.2 = Looping ∧
  log out.1 = [LogLoopError TypeError; LogLoopError TypeError;
               LogLoopError TypeError] ∧
  sleeps out.1 = [5; 5; 5].
Proof.
  intros a out. split; [|by vm_compute].
  refine (proj1 (monitor_survives_errors sample_config (steady_env [a])
                   "Seoul" "bike" ["42"] None None _) 3%nat init_db).
  by repeat split.
Defined.


(** * Further properties of the code *)

(** ** Ledger: lookups after inserts *)



(** X2: [mark_product] only ever appends, and the first row of an id
    wins.  On a ledger that respects its primary key the result respects
    it too; every row that was there is still there, unchanged and in
    place; a call for an id that is already recorded changes no row, even
    when it brings other fields. *)
Theorem mark_product_appends_only
    (i kw ti de se lo ur : string) (pr : Price) (w : World) :
  pk_unique w →
  let w' := (mark_product i kw ti de pr se lo ur w).1 in
  pk_unique w' ∧
  (in_ledger i w = true → product_table w' = product_table w) ∧
  ∃ new, product_table w' = product_table w ++ new ∧
         (length new ≤ 1)%nat ∧ ∀ r, r ∈ new → r_id r = i.
Proof.
  intros Hpk w'.
  pose proof (mark_product_table i kw ti de pr se lo ur w) as Ht.
  fold w' in Ht.
  assert (product_table w' = product_table w →
          pk_unique w' ∧
          (in_ledger i w = true → product_table w' = product_table w) ∧
          ∃ new, product_table w' = product_table w ++ new ∧
                 (length new ≤ 1)%nat ∧ ∀ r, r ∈ new → r_id r = i) as Hsame.
  { intros Heq. split; [unfold pk_unique; by rewrite Heq|]. split; [done|].
    exists []. rewrite app_nil_r. split; [done|]. split; [simpl; lia|].
    intros r Hr. by apply not_elem_of_nil in Hr. }
  destruct (price_to_int pr) as [p|e]; [|by apply Hsame].
  destruct (fits_int64 p); [|by apply Hsame]. simpl in Ht.
  - destruct (in_ledger i w) eqn:Hin; simpl in Ht.
    + by apply Hsame.
    + split; [|split; [done|]].
      * unfold pk_unique. rewrite Ht, map_app. simpl.
        apply NoDup_app. split; [exact Hpk|]. split; [|apply NoDup_singleton].
        intros x Hx. rewrite list_elem_of_singleton. intros ->.
        unfold in_ledger in Hin. by apply existsb_has_id_false in Hin.
      * eexists. split; [exact Ht|]. split; [simpl; lia|].
        intros r Hr. by apply list_elem_of_singleton in Hr as ->.
Qed.

Lemma mark_product_appends_only_witness :
  let pr := {| price_truthy := true; price_int_float := IntOf 15000 |} in
  let pr' := {| price_truthy := true; price_int_float := IntOf 99 |} in
  let w1 := (mark_product "A" "bike" "Road bike" "Good" pr "kim" "Seoul"
               "https://example.org/A" init_db).1 in
  let w2 := (mark_product "A" "cycle" "Other title" "" pr' "lee" "Busan"
               "https://example.org/A2" w1).1 in
  pk_unique w2 ∧ product_table w2 = product_table w1.
Proof.
  intros pr pr' w1 w2.
  assert (pk_unique w1) as Hpk1.
  { apply (mark_product_appends_only "A" "bike" "Road bike" "Good" "kim"
             "Seoul" "https://example.org/A" pr init_db).
    apply NoDup_nil. exact I. }
  destruct (mark_product_appends_only "A" "cycle" "Other title" "" "lee"
              "Busan" "https://example.org/A2" pr' w1 Hpk1)
    as (Hpk2 & Hsame & _).
  split; [exact Hpk2|]. apply Hsame. reflexivity.
Defined.



(** ** Notifier: what [send_telegram] returns *)

(** The entry of a chat in the list that [send_telegram] returns. *)
Definition post_result (env : Env) (n : nat) (chat_id : string)
    : option string :=
  match env_post env n chat_id with
  | Ok resp => Some resp
  | Raise _ => None
  end.

(** The lines that the failed posts of a call leave in the log. *)
Definition post_errors (env : Env) (n : nat) (chat_ids : list string)
    : list LogLine :=
  flat_map (fun c => match env_post env n c with
                     | Ok _ => []
                     | Raise e => [LogTelegramError c e]
                     end) chat_ids.

Definition with_log (l : list LogLine) (w : World) : World :=
  {| product_table := product_table w; telegram_calls := telegram_calls w;
     sleeps := sleeps w; log := l |}.

(** The chats in the order in which their posts complete. *)
Definition completed (latency : nat -> nat) (chat_ids : list string)
    : list string :=
  omap (fun i => chat_ids !! i)
       (completion_order latency (length chat_ids)).

(** The results of the posts at the positions [order], kept by position. *)
Definition post_results (env : Env) (n : nat) (chat_ids : list string)
    (order : list nat) (rs : gmap nat (option string))
    : gmap nat (option string) :=
  fold_left (fun m i => match chat_ids !! i with
                        | Some c => <[i := post_result env n c]> m
                        | None => m
                        end) order rs.

Lemma omap_lookup_seq {A B} (f : A → B) (l : list A) (m : nat → option B) :
  (∀ i x, l !! i = Some x → m i = Some (f x)) →
  omap m (seq 0 (length l)) = map f l.
Proof.
  induction l as [|x l IH] using rev_ind; intros Hm; [done|].
  rewrite length_app, seq_app, omap_app, map_app. simpl.
  rewrite IH.
  - rewrite (Hm (length l) x); [done|].
    rewrite lookup_app_r by lia. by rewrite Nat.sub_diag.
  - intros i y Hi. apply Hm. by apply lookup_app_l_Some.
Qed.

Lemma completed_Permutation latency chat_ids :
  completed latency chat_ids ≡ₚ chat_ids.
Proof.
  unfold completed, completion_order.
  rewrite merge_sort_Permutation.
  rewrite (omap_lookup_seq id chat_ids (fun i => chat_ids !! i)) by done.
  by rewrite map_id.
Qed.

Lemma post_results_keeps env n chat_ids order rs i :
  (∀ c, chat_ids !! i = Some c → rs !! i = Some (post_result env n c)) →
  ∀ c, chat_ids !! i = Some c →
       post_results env n chat_ids order rs !! i = Some (post_result env n c).
Proof.
  revert rs. induction order as [|j order IH]; intros rs Hrs; [exact Hrs|].
  simpl. apply IH. intros c Hc.
  destruct (chat_ids !! j) as [c'|] eqn:Hj; [|by apply Hrs].
  destruct (decide (j = i)) as [->|Hne].
  - rewrite lookup_insert_eq. congruence.
  - rewrite lookup_insert_ne by done. by apply Hrs.
Qed.

Lemma post_results_lookup env n chat_ids order rs i c :
  i ∈ order → chat_ids !! i = Some c →
  post_results env n chat_ids order rs !! i = Some (post_result env n c).
Proof.
  revert rs. induction order as [|j order IH]; intros rs Hi Hc.
  { by apply not_elem_of_nil in Hi. }
  apply elem_of_cons in Hi as [->|Hi]; [|by apply IH].
  simpl. apply post_results_keeps; [|done].
  intros c' Hc'. rewrite Hc'. by rewrite lookup_insert_eq.
Qed.

Lemma run_in_order_posts env n chat_ids order rs w :
  (∀ c, env_post env n c ≠ Raise CancelledError) →
  run_in_order (map (send_to_one env n) chat_ids) order rs w =
  (with_log (log w ++
             post_errors env n (omap (fun i => chat_ids !! i) order)) w,
   Ok (post_results env n chat_ids order rs)).
Proof.
  intros Hc. revert rs w.
  induction order as [|i order IH]; intros rs w; simpl.
  - unfold with_log, post_errors. simpl. rewrite app_nil_r. by destruct w.
  - change (map (send_to_one env n) chat_ids)
      with (send_to_one env n <$> chat_ids).
    rewrite list_lookup_fmap.
    destruct (chat_ids !! i) as [c|] eqn:Hi; simpl; [|apply IH].
    unfold mbind, M_bind, bind at 1.
    unfold send_to_one at 1, post_result at 1, print. unfold_monad.
    pose proof (Hc c) as Hcc.
    change (send_to_one env n <$> chat_ids)
      with (map (send_to_one env n) chat_ids).
    unfold post_errors. simpl. fold (post_errors env n).
    destruct (env_post env n c) as [resp|e]; simpl.
    + by rewrite IH.
    + rewrite (is_Exception_true e) by congruence. simpl.
      rewrite IH. unfold with_log. simpl. by rewrite <- app_assoc.
Qed.

Lemma gather_posts env n latency chat_ids w :
  (∀ c, env_post env n c ≠ Raise CancelledError) →
  gather latency (map (send_to_one env n) chat_ids) w =
  (with_log (log w ++ post_errors env n (completed latency chat_ids)) w,
   Ok (map (post_result env n) chat_ids)).
Proof.
  intros Hc. unfold gather. unfold mbind, M_bind, bind.
  rewrite run_in_order_posts by done. rewrite length_map. simpl.
  unfold completed, ret, M_ret. f_equal. f_equal.
  apply omap_lookup_seq. intros i c Hi.
  apply post_results_lookup; [|done].
  unfold completion_order. rewrite merge_sort_Permutation.
  apply elem_of_seq. apply lookup_lt_Some in Hi. lia.
Qed.

(** X4: the list that [send_telegram] returns has one entry per chat, in
    the order of [chat_ids]: the response where the post succeeded, [None]
    where it raised an [Exception].  Each failed post is logged with its
    chat id, in the order in which the concurrent posts complete; every
    chat completes exactly once.  An empty [chat_ids] stands for
    [DEFAULT_CHAT_IDS].  So the call returns also when every delivery
    failed, and the ledger is not touched. *)
Theorem send_telegram_results cfg env item chat_ids text w :
  let n := length (telegram_calls w) in
  let targets := if bool_decide (chat_ids = []) then DEFAULT_CHAT_IDS cfg
                 else chat_ids in
  let done_order := completed (env_latency env n) targets in
  env_session env n = None →
  (∀ c, env_post env n c ≠ Raise CancelledError) →
  send_telegram cfg env item chat_ids text w =
  ({| product_table := product_table w;
      telegram_calls := telegram_calls w ++
        [{| tc_item := item; tc_chat_ids := targets; tc_text := text |}];
      sleeps := sleeps w;
      log := log w ++ post_errors env n done_order |},
   Ok (map (post_result env n) targets)) ∧
  done_order ≡ₚ targets.
Proof.
  intros n targets done_order Hses Hpost.
  split; [|apply completed_Permutation].
  unfold send_telegram, record_call, open_session.
  unfold mbind, M_bind, bind at 1. simpl. unfold bind at 1.
  fold n. rewrite Hses. simpl. fold targets.
  by rewrite gather_posts.
Qed.

Lemma send_telegram_results_witness :
  let env := {| env_fetch := fun _ => Ok [];
                env_session := fun _ => None;
                env_post := fun _ c => if bool_decide (c = "1")
                                       then Ok "sent"
                                       else Raise (OtherError "timeout");
                env_latency := fun _ i => (3 - i)%nat;
                env_sleep := fun _ => false |} in
  let cfg := {| DEFAULT_CHAT_IDS := ["2"; "1"; "3"]; POLL_INTERVAL := 20;
                startup_now := 0 |} in
  let text := notification_text "bike" (sample_listing "A" None) 0 None in
  let out := send_telegram cfg env "A" [] text init_db in
  out.2 = Ok [None; Some "sent"; None] ∧
  log out.1 = [LogTelegramError "3" (OtherError "timeout");
               LogTelegramError "2" (OtherError "timeout")] ∧
  product_table out.1 = [].
Proof.
  intros env cfg text out. subst out.
  destruct (send_telegram_results cfg env "A" [] text init_db eq_refl)
    as [-> _].
  - intros c. simpl. by destruct (bool_decide (c = "1")).
  - by repeat split.
Defined.

(** ** One-shot scan: what a call can do *)

Section scan_cases.
Context (cfg : Config) (env : Env) (req : ScanRequest).

(** A listing either leaves [sent_items] and the notifier alone, or is
    notified and then raises. *)
Lemma scan_item_cases cutoff it sent w :
  let out := scan_item cfg env req cutoff it sent w in
  match out.2 with
  | Ok sent' => sent' = sent ∧ telegram_calls out.1 = telegram_calls w
  | Raise _ =>
      telegram_calls out.1 = telegram_calls w ∨
      ∃ c, tc_item c = it_id it ∧
           telegram_calls out.1 = telegram_calls w ++ [c]
  end.
Proof.
  unfold scan_item, builtin_id_getitem. unfold_monad.
  destruct (it_pull_up_time_text it) as [d|]; simpl; [|done].
  destruct (dt_ge d cutoff) as [[|]|e]; simpl; [|done|by left].
  destruct (price_to_int (it_price it)) as [p|e]; simpl; [|by left].
  pose proof (send_telegram_store cfg env (it_id it) (DEFAULT_CHAT_IDS cfg)
    (notification_text (sr_keyword req) it p (Some d)) w) as (_ & _ & Hc).
  destruct (send_telegram _ _ _ _ _ w) as [w1 [rs|e]]; simpl in *;
    right; eexists; (split; [|exact Hc]); reflexivity.
Qed.

Lemma scan_loop_cases cutoff results sent w :
  let out := scan_loop cfg env req cutoff results sent w in
  (length (telegram_calls out.1) ≤ S (length (telegram_calls w)))%nat ∧
  match out.2 with
  | Ok sent' => sent' = sent ∧ telegram_calls out.1 = telegram_calls w
  | Raise _ => True
  end.
Proof.
  revert sent w. induction results as [|it rest IH]; intros sent w; simpl.
  - unfold mret, M_ret, ret. simpl. split; [lia|done].
  - unfold mbind, M_bind, bind.
    pose proof (scan_item_cases cutoff it sent w) as Hi. cbv zeta in Hi.
    destruct (scan_item cfg env req cutoff it sent w) as [w1 [s|e]];
      simpl in Hi |- *.
    + destruct Hi as [-> Hc]. specialize (IH sent w1). cbv zeta in IH.
      rewrite Hc in IH. destruct IH as [Hlen Hres]. split; [done|].
      destruct (scan_loop cfg env req cutoff rest sent w1).2; [|done].
      destruct Hres as [-> ->]. done.
    + split; [|done]. destruct Hi as [->|(c & _ & ->)]; [lia|].
      rewrite length_app. simpl. lia.
Qed.

Lemma scan_item_not_cancelled cutoff it sent w :
  never_cancelled env →
  (scan_item cfg env req cutoff it sent w).2 ≠ Raise CancelledError.
Proof.
  intros Hnc. unfold scan_item, builtin_id_getitem. unfold_monad.
  destruct (it_pull_up_time_text it) as [d|]; simpl; [|done].
  assert (dt_ge d cutoff ≠ Raise CancelledError) as Hge
    by (unfold dt_ge; destruct d, cutoff; done).
  destruct (dt_ge d cutoff) as [[|]|e]; simpl; [|done|congruence].
  assert (price_to_int (it_price it) ≠ Raise CancelledError) as Hpr.
  { unfold price_to_int.
    destruct (price_truthy _); [destruct (price_int_float _)|]; done. }
  destruct (price_to_int (it_price it)) as [p|e]; simpl; [|congruence].
  pose proof (send_telegram_not_cancelled cfg env (DEFAULT_CHAT_IDS cfg)
    (it_id it) (notification_text (sr_keyword req) it p (Some d)) w Hnc)
    as Hs.
  destruct (send_telegram _ _ _ _ _ w) as [w1 [rs|e]]; simpl in *;
    [done|congruence].
Qed.

Lemma scan_loop_not_cancelled cutoff results sent w :
  never_cancelled env →
  (scan_loop cfg env req cutoff results sent w).2 ≠ Raise CancelledError.
Proof.
  intros Hnc. revert sent w.
  induction results as [|it rest IH]; intros sent w; simpl; [done|].
  unfold mbind, M_bind, bind.
  pose proof (scan_item_not_cancelled cutoff it sent w Hnc) as Hi.
  destruct (scan_item cfg env req cutoff it sent w) as [w1 [s|e]];
    simpl in *; [apply IH|done].
Qed.

End scan_cases.

(** The result of the statements of [scan_products] that precede its
    loop. *)
Definition scan_cutoff (now_kst : Z) (req : ScanRequest) : result datetime :=
  match timedelta_days (sr_days req) with
  | Ok delta => dt_sub (Aware now_kst KST) delta
  | Raise e => Raise e
  end.

Lemma scan_products_unfold cfg env n now_kst req w :
  scan_products cfg env n now_kst req w =
  match env_fetch env n with
  | Ok results =>
      match scan_cutoff now_kst req with
      | Ok cutoff =>
          match scan_loop cfg env req cutoff results [] w with
          | (w', Ok sent) => (w', Ok (ScanSuccess (length sent) sent))
          | (w', Raise e) =>
              if is_Exception e then (w', Ok (ScanError e))
              else (w', Raise e)
          end
      | Raise e =>
          if is_Exception e then (w, Ok (ScanError e)) else (w, Raise e)
      end
  | Raise e => if is_Exception e then (w, Ok (ScanError e)) else (w, Raise e)
  end.
Proof.
  unfold scan_products, fetch_search_results, scan_cutoff. unfold_monad.
  destruct (env_fetch env n) as [results|e]; [|done].
  destruct (timedelta_days (sr_days req)) as [delta|e]; [|done].
  by destruct (dt_sub (Aware now_kst KST) delta) as [cutoff|e].
Qed.

(** X5: when [scan_products] answers success, it has sent nothing:
    [sent_count] is 0, [sent_ids] is empty and no [send_telegram] call was
    made.  A scan that does notify a listing never reports it. *)
Theorem scan_products_success_sent_nothing
    cfg env n now_kst req w count ids :
  (scan_products cfg env n now_kst req w).2 = Ok (ScanSuccess count ids) →
  count = 0%nat ∧ ids = [] ∧
  telegram_calls (scan_products cfg env n now_kst req w).1 = telegram_calls w.
Proof.
  rewrite scan_products_unfold.
  destruct (env_fetch env n) as [results|e];
    [|destruct (is_Exception e); simpl; congruence].
  destruct (scan_cutoff now_kst req) as [cutoff|e];
    [|destruct (is_Exception e); simpl; congruence].
  pose proof (scan_loop_cases cfg env req cutoff results [] w) as [_ Hres].
  destruct (scan_loop cfg env req cutoff results [] w) as [w1 [sent|e]];
    simpl in *; [|destruct (is_Exception e); simpl; congruence].
  destruct Hres as [-> Hc]. by intros [= <- <-].
Qed.

Lemma scan_products_success_sent_nothing_witness :
  let now_kst := 739003 * us_per_day in
  let old := sample_listing "old" (Some (Aware (now_kst - 2 * us_per_day) KST)) in
  let req := {| sr_location := "Seoul"; sr_keyword := "bike"; sr_days := 1;
                sr_min_price := None; sr_max_price := None |} in
  let out := scan_products sample_config (steady_env [old]) 0 now_kst req
               init_db in
  out.2 = Ok (ScanSuccess 0 []) ∧ telegram_calls out.1 = [].
Proof.
  intros now_kst old req out.
  assert (out.2 = Ok (ScanSuccess 0 [])) as Hout by reflexivity.
  split; [exact Hout|].
  exact (proj2 (proj2 (scan_products_success_sent_nothing sample_config
                         (steady_env [old]) 0 now_kst req init_db 0 [] Hout))).
Defined.

(** X6: [scan_products] neither reads nor writes the ledger: started from
    any other [product_table], it gives the same answer, the same notifier
    traffic and log, and leaves that table as it is. *)
Theorem scan_products_ignores_ledger cfg env n now_kst req t w :
  scan_products cfg env n now_kst req (with_table t w) =
  (with_table t (scan_products cfg env n now_kst req w).1,
   (scan_products cfg env n now_kst req w).2).
Proof. apply scan_products_ledger_blind. Qed.

(** X7: one call of [scan_products] makes at most one [send_telegram]
    call, however many listings fall within the window: the first listing
    that is notified ends the loop with the [TypeError] of the subscript on
    the builtin [id]. *)
Theorem scan_products_notifies_at_most_one cfg env n now_kst req w :
  (length (telegram_calls (scan_products cfg env n now_kst req w).1)
   ≤ S (length (telegram_calls w)))%nat.
Proof.
  rewrite scan_products_unfold.
  destruct (env_fetch env n) as [results|e];
    [|destruct (is_Exception e); simpl; lia].
  destruct (scan_cutoff now_kst req) as [cutoff|e];
    [|destruct (is_Exception e); simpl; lia].
  pose proof (scan_loop_cases cfg env req cutoff results [] w) as [Hlen _].
  destruct (scan_loop cfg env req cutoff results [] w) as [w1 [sent|e]];
    simpl in *; [done|]. by destruct (is_Exception e).
Qed.

(** X8: a lookback window that [timedelta] or the subtraction from now
    cannot represent (more than 999999999 days, or reaching before year 1
    or past year 9999) is answered with the error status after the fetch;
    nothing is sent and nothing changes. *)
Theorem scan_products_window_overflow cfg env n now_kst req results w :
  env_fetch env n = Ok results →
  999999999 < Z.abs (sr_days req) ∨
  now_kst - sr_days req * us_per_day < 0 ∨
  datetime_range ≤ now_kst - sr_days req * us_per_day →
  scan_products cfg env n now_kst req w = (w, Ok (ScanError OverflowError)).
Proof.
  intros Hf Hover. rewrite scan_products_unfold, Hf.
  assert (scan_cutoff now_kst req = Raise OverflowError) as ->; [|done].
  unfold scan_cutoff, timedelta_days, dt_sub.
  destruct (Z.abs (sr_days req) <=? 999999999) eqn:Hd; [|done].
  apply Z.leb_le in Hd.
  destruct Hover as [?|[Hlo|Hhi]]; [lia| |].
  - assert ((0 <=? now_kst - sr_days req * us_per_day) = false) as ->
      by (by apply Z.leb_gt). done.
  - assert ((now_kst - sr_days req * us_per_day <? datetime_range) = false)
      as -> by (by apply Z.ltb_ge). by rewrite andb_false_r.
Qed.

Lemma scan_products_window_overflow_witness :
  let now_kst := 739003 * us_per_day in
  let new := sample_listing "new" (Some (Aware now_kst KST)) in
  let req := {| sr_location := "Seoul"; sr_keyword := "bike";
                sr_days := 800000; sr_min_price := None;
                sr_max_price := None |} in
  scan_products sample_config (steady_env [new]) 0 now_kst req init_db =
  (init_db, Ok (ScanError OverflowError)).
Proof.
  intros now_kst new req.
  apply (scan_products_window_overflow sample_config (steady_env [new]) 0
           now_kst req [new] init_db eq_refl).
  right. left. by vm_compute.
Defined.

(** X9: [scan_products] always answers.  Unless the request is cancelled,
    every exception of the fetch, of the window, of a comparison, of a
    price or of the notifier ends in a response, success or error, and
    never in an exception for the caller. *)
Theorem scan_products_always_answers cfg env n now_kst req w :
  never_cancelled env →
  ∃ response, (scan_products cfg env n now_kst req w).2 = Ok response.
Proof.
  intros Hnc. rewrite scan_products_unfold.
  destruct (env_fetch env n) as [results|e] eqn:Hf.
  - destruct (scan_cutoff now_kst req) as [cutoff|e] eqn:Hcut.
    + pose proof (scan_loop_not_cancelled cfg env req cutoff results [] w Hnc)
        as Hl.
      destruct (scan_loop cfg env req cutoff results [] w) as [w1 [sent|e]];
        simpl in *; [by eexists|].
      rewrite is_Exception_true by congruence. by eexists.
    + assert (e = OverflowError) as ->.
      { unfold scan_cutoff, timedelta_days, dt_sub in Hcut.
        destruct (Z.abs _ <=? _); [|congruence].
        destruct (_ && _); congruence. }
      by eexists.
  - destruct Hnc as (Hfetch & _).
    rewrite is_Exception_true by (intros ->; by apply (Hfetch n)).
    by eexists.
Qed.

Lemma scan_products_always_answers_witness :
  let now_kst := 739003 * us_per_day in
  let naive := sample_listing "A" (Some (Naive now_kst)) in
  let req := {| sr_location := "Seoul"; sr_keyword := "bike"; sr_days := 1;
                sr_min_price := None; sr_max_price := None |} in
  (∃ response,
     (scan_products sample_config (steady_env [naive]) 0 now_kst req
        init_db).2 = Ok response) ∧
  (scan_products sample_config (steady_env [naive]) 0 now_kst req init_db).2
    = Ok (ScanError TypeError).
Proof.
  intros now_kst naive req. split; [|reflexivity].
  apply (scan_products_always_answers sample_config (steady_env [naive]) 0
           now_kst req init_db).
  by repeat split.
Defined.

(** ** Monitor: invariants of a whole run *)







(** The ledger after is the ledger before with rows added at its end. *)
Definition extends_ledger (w w' : World) : Prop :=
  (pk_unique w → pk_unique w') ∧
  ∃ new, product_table w' = product_table w ++ new.

(** X11: a monitor keeps the ledger sound: it never removes or rewrites a
    row (the table after any run is the table before, followed by the new
    rows), and it keeps the ids of the table distinct. *)
Theorem monitor_extends_ledger
    cfg env location keyword chats min_price max_price fuel w :
  extends_ledger w
    (monitor_keyword fuel cfg env location keyword chats min_price max_price
       w).1.
Proof.
  apply (monitor_keyword_lift cfg env location keyword chats min_price
           max_price extends_ledger (fun _ => True)); [| | | |done].
  - intros w0. split; [done|]. exists []. by rewrite app_nil_r.
  - intros w1 w2 w3 [Hp1 [n1 H1]] [Hp2 [n2 H2]]. split; [auto|].
    exists (n1 ++ n2). by rewrite H2, H1, app_assoc.
  - intros w0 w1 Ht _. split; [unfold pk_unique; by rewrite Ht|].
    exists []. by rewrite app_nil_r.
  - intros it w0 _.
    pose proof (monitor_item_spec cfg env keyword chats it w0) as Hs.
    cbv zeta in Hs. destruct (notifies cfg it w0) eqn:Hn.
    + destruct Hs as (p & _ & _ & _ & Hres).
      destruct (send_telegram _ _ _ _ _ w0).2 as [rs|e];
        destruct Hres as [_ Ht]; [destruct (fits_int64 p)|].
      * split; [|by eexists].
        unfold pk_unique. rewrite Ht, map_app. simpl. intros Hpk.
        apply NoDup_app. split; [exact Hpk|].
        split; [|apply NoDup_singleton].
        intros x Hx. rewrite list_elem_of_singleton. intros ->.
        unfold notifies in Hn. destruct (newer_than _ _) as [[|]|]; try done.
        apply andb_true_iff in Hn as [Hn _]. apply negb_true_iff in Hn.
        unfold in_ledger in Hn. by apply existsb_has_id_false in Hn.
      * split; [unfold pk_unique; by rewrite Ht|].
        exists []. by rewrite app_nil_r.
      * split; [unfold pk_unique; by rewrite Ht|].
        exists []. by rewrite app_nil_r.
    + destruct Hs as [(Ht & _) _].
      split; [unfold pk_unique; by rewrite Ht|].
      exists []. by rewrite app_nil_r.
Qed.

(** Every row added for [i] between [w] and [w'] has its [send_telegram]
    call. *)
Definition rows_notified (w w' : World) : Prop :=
  ∀ i, (notifications i w ≤ notifications i w')%nat ∧
       (rows_with i w' + notifications i w
        ≤ rows_with i w + notifications i w')%nat.

(** X12: a monitor records only what it notified: for every id, the rows
    added to the ledger during a run are no more than the [send_telegram]
    calls made for that id during the run, and calls are never taken
    back. *)
Theorem monitor_records_only_notified
    cfg env location keyword chats min_price max_price fuel w :
  rows_notified w
    (monitor_keyword fuel cfg env location keyword chats min_price max_price
       w).1.
Proof.
  apply (monitor_keyword_lift cfg env location keyword chats min_price
           max_price rows_notified (fun _ => True)); [| | | |done].
  - intros w0 i. lia.
  - intros w1 w2 w3 H1 H2 i. specialize (H1 i). specialize (H2 i). lia.
  - intros w0 w1 Ht Hc i. unfold notifications, rows_with.
    rewrite Ht, Hc. lia.
  - intros it w0 _ i.
    pose proof (monitor_item_spec cfg env keyword chats it w0) as Hs.
    cbv zeta in Hs. destruct (notifies cfg it w0) eqn:Hn.
    + destruct Hs as (p & _ & _ & Hcalls & Hres).
      pose proof (send_telegram_store cfg env (it_id it) chats
        (notification_text keyword it p (it_pull_up_time_text it)) w0)
        as (_ & _ & Hc). rewrite Hc in Hcalls.
      rewrite (notifications_snoc i _ _ _ Hcalls). simpl.
      destruct (send_telegram _ _ _ _ _ w0).2 as [rs|e];
        destruct Hres as [_ Ht]; [destruct (fits_int64 p)|].
      * rewrite (rows_with_snoc i _ _ _ Ht). unfold has_id, row_of. simpl.
        destruct (bool_decide (it_id it = i)); lia.
      * unfold rows_with. rewrite Ht. lia.
      * unfold rows_with. rewrite Ht. lia.
    + destruct Hs as [(Ht & Hc & _) _]. unfold notifications, rows_with.
      rewrite Ht, Hc. lia.
Qed.

(** ** Monitor: pacing and cancellation *)

Section pacing.
Context (cfg : Config) (env : Env).
Context (location keyword : string) (chats : list string).
Context (min_price max_price : option Z).

Lemma monitor_item_sleeps it w :
  sleeps (monitor_item cfg env keyword chats it w).1 = sleeps w.
Proof.
  pose proof (monitor_item_spec cfg env keyword chats it w) as Hs.
  cbv zeta in Hs. destruct (notifies cfg it w).
  - by destruct Hs as (p & _ & Hsl & _).
  - by destruct Hs as [(_ & _ & Hsl) _].
Qed.

Lemma monitor_results_sleeps xs w :
  sleeps (monitor_results cfg env keyword chats xs w).1 = sleeps w.
Proof.
  unfold monitor_results. revert w.
  induction xs as [|x xs IH]; intros w; [done|].
  rewrite for_each_cons. pose proof (monitor_item_sleeps x w) as Hx.
  destruct (monitor_item cfg env keyword chats x w) as [w1 [[]|e]];
    simpl in Hx; [|done].
  by rewrite IH.
Qed.

(** An iteration that returns to the loop has slept exactly once, the poll
    interval after a normal pass and the recovery interval after an
    exception. *)
Lemma monitor_iteration_sleeps n w :
  let out := monitor_iteration cfg env n location keyword chats min_price
               max_price w in
  out.2 = Ok tt →
  ∃ s, sleeps out.1 = sleeps w ++ [s] ∧
       (s = POLL_INTERVAL cfg ∨ s = recovery_interval).
Proof.
  cbv zeta.
  destruct (monitor_iteration cfg env n location keyword chats min_price
              max_price w) as [w' r] eqn:Hit.
  simpl. intros ->. revert Hit.
  unfold monitor_iteration, iteration_body, fetch_search_results.
  unfold try_except. unfold mbind at 1, M_bind at 1, bind at 1, lift at 1.
  assert (∀ e w1, sleeps w1 = sleeps w →
            (print (LogLoopError e);; sleep env recovery_interval) w1 =
              (w', Ok tt) →
            ∃ s, sleeps w' = sleeps w ++ [s] ∧
                 (s = POLL_INTERVAL cfg ∨ s = recovery_interval)) as Hh.
  { intros e w1 Hw1. unfold print, sleep. unfold_monad. simpl.
    destruct (env_sleep env (length (sleeps w1))); [done|].
    intros [= <-]. simpl. exists recovery_interval.
    split; [by rewrite Hw1|by right]. }
  destruct (env_fetch env n) as [results|e].
  - unfold mbind at 1, M_bind at 1, bind at 1.
    pose proof (monitor_results_sleeps results w) as Hr.
    destruct (monitor_results cfg env keyword chats results w)
      as [w1 [[]|e]]; simpl in Hr.
    + unfold sleep at 1.
      destruct (env_sleep env (length (sleeps w1))); simpl; [done|].
      intros [= <-]. simpl. exists (POLL_INTERVAL cfg).
      split; [by rewrite Hr|by left].
    + destruct (is_Exception e); [|done]. by apply Hh.
  - destruct (is_Exception e); [|done]. by apply Hh.
Qed.

Lemma while_true_sleeps fuel n w :
  let out := while_true fuel cfg env n location keyword chats min_price
               max_price w in
  out.2 = Ok tt →
  ∃ ss, sleeps out.1 = sleeps w ++ ss ∧ length ss = fuel ∧
        ∀ s, s ∈ ss → s = POLL_INTERVAL cfg ∨ s = recovery_interval.
Proof.
  revert n w. induction fuel as [|fuel IH]; intros n w; simpl.
  - intros _. exists []. rewrite app_nil_r. split; [done|]. split; [done|].
    intros s Hs. by apply not_elem_of_nil in Hs.
  - pose proof (monitor_iteration_sleeps n w) as Hi. cbv zeta in Hi.
    destruct (monitor_iteration _ _ _ _ _ _ _ _ w) as [w1 [[]|e]];
      simpl in Hi; [|done].
    destruct (Hi eq_refl) as (s & Hs & Hcase). intros Hok.
    destruct (IH (S n) w1 Hok) as (ss & Hss & Hlen & Hall).
    exists (s :: ss). split; [|split].
    + rewrite Hss, Hs, <- app_assoc. done.
    + simpl. by rewrite Hlen.
    + intros s' Hs'. apply elem_of_cons in Hs' as [->|Hs']; auto.
Qed.

End pacing.

(** X13: the loop never spins.  A monitor that is still looping after
    [fuel] iterations has slept exactly [fuel] times, once per iteration,
    each time for [POLL_INTERVAL] (after a normal pass) or for 5 (after an
    exception); nothing else in an iteration sleeps. *)
Theorem monitor_sleeps_once_per_iteration
    cfg env location keyword chats min_price max_price fuel w :
  let out := monitor_keyword fuel cfg env location keyword chats min_price
               max_price w in
  out.2 = Looping →
  ∃ ss, sleeps out.1 = sleeps w ++ ss ∧ length ss = fuel ∧
        ∀ s, s ∈ ss → s = POLL_INTERVAL cfg ∨ s = recovery_interval.
Proof.
  unfold monitor_keyword.
  pose proof (while_true_sleeps cfg env location keyword chats min_price
                max_price fuel 0 w) as Hw. cbv zeta in Hw.
  destruct (while_true _ _ _ _ _ _ _ _ _ w) as [w1 [[]|e]]; simpl in *.
  - intros _. by apply Hw.
  - by destruct e.
Qed.

Lemma monitor_sleeps_once_per_iteration_witness :
  let posted := startup_now sample_config + us_per_second in
  let l := sample_listing "A" (Some (Aware posted KST)) in
  let out := monitor_keyword 2 sample_config (steady_env [l]) "Seoul" "bike"
               ["42"] None None init_db in
  (∃ ss, sleeps out.1 = sleeps init_db ++ ss ∧ length ss = 2%nat ∧
         ∀ s, s ∈ ss → s = POLL_INTERVAL sample_config ∨
                       s = recovery_interval) ∧
  sleeps out.1 = [20; 20].
Proof.
  intros posted l out. split; [|reflexivity].
  apply (monitor_sleeps_once_per_iteration sample_config (steady_env [l])
           "Seoul" "bike" ["42"] None None 2 init_db).
  reflexivity.
Defined.

(** X14: a cancellation delivered during the poll sleep ends the task by
    a plain return, not by an exception: [monitor_keyword] logs it and
    returns, and what the pass before the sleep notified and recorded
    stays. *)
Theorem monitor_cancelled_in_sleep_returns
    cfg env location keyword chats min_price max_price fuel results w w1 :
  env_fetch env 0 = Ok results →
  monitor_results cfg env keyword chats results w = (w1, Ok tt) →
  env_sleep env (length (sleeps w1)) = true →
  monitor_keyword (S fuel) cfg env location keyword chats min_price max_price
    w =
  ({| product_table := product_table w1;
      telegram_calls := telegram_calls w1;
      sleeps := sleeps w1 ++ [POLL_INTERVAL cfg];
      log := log w1 ++ [LogCancelled] |}, Returned).
Proof.
  intros Hf Hr Hs.
  unfold monitor_keyword. simpl while_true.
  unfold monitor_iteration, iteration_body, fetch_search_results, try_except.
  unfold mbind at 1, M_bind at 1, bind at 1, lift at 1. rewrite Hf.
  unfold mbind at 1, M_bind at 1, bind at 1. rewrite Hr.
  unfold sleep at 1. rewrite Hs. simpl. done.
Qed.

Lemma monitor_cancelled_in_sleep_returns_witness :
  let posted := startup_now sample_config + us_per_second in
  let l := sample_listing "A" (Some (Aware posted KST)) in
  let env := {| env_fetch := fun _ => Ok [l];
                env_session := fun _ => None;
                env_post := fun _ _ => Ok "ok";
                env_latency := fun _ i => i;
                env_sleep := fun _ => true |} in
  let out := monitor_keyword 5 sample_config env "Seoul" "bike" ["42"]
               None None init_db in
  out.2 = Returned ∧ in_ledger "A" out.1 = true ∧
  notifications "A" out.1 = 1%nat ∧ log out.1 = [LogCancelled].
Proof.
  intros posted l env out. subst out.
  rewrite (monitor_cancelled_in_sleep_returns sample_config env "Seoul"
             "bike" ["42"] None None 4 [l] init_db
             (monitor_results sample_config env "bike" ["42"] [l] init_db).1
             eq_refl eq_refl eq_refl).
  by vm_compute.
Defined.

(** ** Timestamps without an offset *)

(** X15: a listing whose timestamp carries no UTC offset (a naive
    datetime, as [isoparse] gives for a string without one) cannot be
    compared with the aware [server_start_time] or scan cutoff: in a
    monitor the [TypeError] ends the iteration before any listing that
    follows it, in a scan it ends the request with the error status,
    nothing sent. *)
Theorem naive_timestamp_raises
    cfg env n location keyword chats min_price max_price now_kst req cutoff
    x rest wall w :
  env_fetch env n = Ok (x :: rest) →
  it_pull_up_time_text x = Some (Naive wall) →
  scan_cutoff now_kst req = Ok cutoff →
  (monitor_iteration cfg env n location keyword chats min_price max_price
     w).1 =
  {| product_table := product_table w;
     telegram_calls := telegram_calls w;
     sleeps := sleeps w ++ [recovery_interval];
     log := log w ++ [LogLoopError TypeError] |} ∧
  scan_products cfg env n now_kst req w = (w, Ok (ScanError TypeError)).
Proof.
  intros Hf Hx Hcut. split.
  - unfold monitor_iteration, iteration_body, fetch_search_results,
      monitor_results.
    unfold try_except. unfold mbind at 1, M_bind at 1, bind at 1, lift at 1.
    rewrite Hf. unfold mbind at 1, M_bind at 1, bind at 1.
    rewrite for_each_cons.
    unfold monitor_item at 1. rewrite Hx.
    unfold mbind at 1, M_bind at 1, bind at 1, lift at 1. simpl.
    unfold sleep, print. unfold_monad. simpl.
    by destruct (env_sleep env (length (sleeps w))).
  - rewrite scan_products_unfold, Hf, Hcut. simpl scan_loop.
    unfold mbind, M_bind, bind. unfold scan_item. rewrite Hx.
    assert (∃ wc oc, cutoff = Aware wc oc) as (wc & oc & ->).
    { unfold scan_cutoff, dt_sub in Hcut.
      destruct (timedelta_days _); [|done].
      destruct (_ && _); [|done]. injection Hcut as <-. by eexists _, _. }
    unfold_monad. done.
Qed.

Lemma naive_timestamp_raises_witness :
  let now_kst := 739003 * us_per_day in
  let a := sample_listing "A" (Some (Naive now_kst)) in
  let b := sample_listing "B" (Some (Aware now_kst KST)) in
  let req := {| sr_location := "Seoul"; sr_keyword := "bike"; sr_days := 1;
                sr_min_price := None; sr_max_price := None |} in
  let env := steady_env [a; b] in
  notifications "B"
    (monitor_iteration sample_config env 0 "Seoul" "bike" ["42"] None None
       init_db).1 = 0%nat ∧
  scan_products sample_config env 0 now_kst req init_db =
    (init_db, Ok (ScanError TypeError)).
Proof.
  intros now_kst a b req env.
  destruct (naive_timestamp_raises sample_config env 0 "Seoul" "bike" ["42"]
              None None now_kst req (Aware (now_kst - us_per_day) KST)
              a [b] now_kst init_db eq_refl eq_refl eq_refl) as [Hm Hs].
  split; [by rewrite Hm|exact Hs].
Defined.

(** ** Registry: keys and their parts *)

Definition colon : Ascii.ascii :=
  Ascii.Ascii false true false true true true false false.

Fixpoint all_chars (P : Ascii.ascii → bool) (s : string) : bool :=
  match s with
  | EmptyString => true
  | String c s' => P c && all_chars P s'
  end.

(** The string holds no colon. *)
Definition colon_free (s : string) : bool :=
  all_chars (fun c => negb (Ascii.eqb c colon)) s.

Lemma split_colon_nonempty s : split_colon s ≠ [].
Proof.
  destruct s as [|c s]; simpl; [done|].
  destruct (Ascii.eqb c _); [done|].
  by destruct (split_colon s).
Qed.

Lemma split_colon_free s : colon_free s = true → split_colon s = [s].
Proof.
  induction s as [|c s IH]; simpl; [done|].
  intros [Hc Hs]%andb_true_iff.
  apply negb_true_iff in Hc. unfold colon in Hc. rewrite Hc, (IH Hs). done.
Qed.

Lemma split_colon_app s rest :
  colon_free s = true →
  split_colon (s +:+ ":" +:+ rest) = s :: split_colon rest.
Proof.
  induction s as [|c s IH]; simpl.
  - done.
  - intros [Hc Hs]%andb_true_iff.
    apply negb_true_iff in Hc. unfold colon in Hc. rewrite Hc.
    simpl in IH. by rewrite (IH Hs).
Qed.

(** Whatever the parts hold, a key has at least two of them. *)
Lemma split_colon_two s rest :
  ∃ h k t, split_colon (s +:+ ":" +:+ rest) = h :: k :: t.
Proof.
  induction s as [|c s IH]; simpl.
  - change (split_colon ("" +:+ rest)) with (split_colon rest).
    destruct (split_colon rest) as [|k t] eqn:Hr;
      [by apply split_colon_nonempty in Hr|].
    eexists _, _, _. reflexivity.
  - destruct IH as (h & k & t & IH). simpl in IH. rewrite IH.
    destruct (Ascii.eqb c _); eexists _, _, _; reflexivity.
Qed.

Lemma unpack_filter_key_returns req :
  ∃ v, unpack_key (filter_key req) = Ok v.
Proof.
  unfold unpack_key, filter_key.
  destruct (split_colon_two (wr_location req)
              (wr_keyword req +:+ ":" +:+ py_str (wr_min_price req) +:+ ":"
               +:+ py_str (wr_max_price req))) as (h & k & t & ->).
  by eexists.
Qed.

(** X16: for a filter whose location and keyword hold no colon,
    [active_watches] shows the filter's own location and keyword: the two
    names it unpacks from the key are the ones the key was built from.  *)
Theorem unpack_filter_key req :
  colon_free (wr_location req) = true →
  colon_free (wr_keyword req) = true →
  unpack_key (filter_key req) = Ok (wr_location req, wr_keyword req).
Proof.
  intros Hl Hk. unfold unpack_key, filter_key.
  rewrite (split_colon_app _ _ Hl), (split_colon_app _ _ Hk). done.
Qed.

Lemma unpack_filter_key_witness :
  let req := {| wr_location := "Seoul"; wr_keyword := "road bike";
                wr_min_price := Some 1000; wr_max_price := None |} in
  filter_key req = "Seoul:road bike:1000:None" ∧
  unpack_key (filter_key req) = Ok ("Seoul", "road bike").
Proof.
  intros req. split; [reflexivity|].
  apply (unpack_filter_key req); reflexivity.
Defined.

(** ** Registry: what [active_watches] lists *)

(** Every key of the registry was built by [filter_key]. *)
Definition keys_from_filters (r : Registry) : Prop :=
  ∀ k t, _monitor_tasks r !! k = Some t → ∃ req, k = filter_key req.

Lemma reachable_keys_from_filters cfg r :
  reachable cfg r → keys_from_filters r.
Proof.
  induction 1 as [|r req _ IH|r req _ IH|r t _ IH]; intros k t'.
  - simpl. by rewrite lookup_empty.
  - unfold watch. destruct (live_under r (filter_key req)); simpl;
      [apply IH|].
    rewrite lookup_insert_Some. intros [[<- _]|[_ Hk]]; [by eexists|].
    by eapply IH.
  - unfold stop_watch.
    destruct (_monitor_tasks r !! filter_key req); simpl; apply IH.
  - simpl. apply IH.
Qed.

Lemma active_loop_spec r items res :
  NoDup items.*1 →
  (∀ k, k ∈ items.*1 → res !! k = None) →
  (∀ k t, (k, t) ∈ items → ∃ v, unpack_key k = Ok v) →
  ∃ m, active_loop r items res = Ok m ∧
       ∀ k v, m !! k = Some v ↔
              res !! k = Some v ∨
              ∃ t, (k, t) ∈ items ∧ task_done r t = false ∧
                   unpack_key k = Ok v.
Proof.
  revert res. induction items as [|[key t] rest IH]; intros res Hnd Hres Hun.
  - exists res. split; [done|]. intros k v. split; [by left|].
    intros [?|(t & Ht & _)]; [done|]. by apply not_elem_of_nil in Ht.
  - simpl in Hnd. apply NoDup_cons in Hnd as [Hkey Hnd].
    assert (∀ k t', (k, t') ∈ rest → ∃ v, unpack_key k = Ok v) as Hun'.
    { intros k t' Hin. apply (Hun k t'). by apply list_elem_of_further. }
    simpl. destruct (task_done r t) eqn:Hdone; simpl.
    + destruct (IH res Hnd) as (m & Hm & Hspec); [|done|].
      { intros k Hk. apply Hres. simpl. by apply list_elem_of_further. }
      exists m. split; [done|]. intros k v. rewrite Hspec.
      split; (intros [?|(t' & Hin & Hlive & Hv)]; [by left|right]).
      * exists t'. split; [by apply list_elem_of_further|done].
      * apply elem_of_cons in Hin as [[= -> ->]|Hin]; [congruence|].
        by exists t'.
    + destruct (Hun key t) as [[loc kw] Hv]; [apply list_elem_of_here|].
      rewrite Hv.
      destruct (IH (<[key := (loc, kw)]> res) Hnd) as (m & Hm & Hspec);
        [|done|].
      { intros k Hk. rewrite lookup_insert_ne by (intros ->; done).
        apply Hres. simpl. by apply list_elem_of_further. }
      exists m. split; [done|]. intros k v. rewrite Hspec.
      rewrite lookup_insert_Some.
      assert (res !! key = None) as Hnone
        by (apply Hres; simpl; apply list_elem_of_here).
      split.
      * intros [[[<- <-]|[Hne Hr]]|(t' & Hin & Hlive & Hv')].
        -- right. exists t. split; [apply list_elem_of_here|done].
        -- by left.
        -- right. exists t'. split; [by apply list_elem_of_further|done].
      * intros [Hr|(t' & Hin & Hlive & Hv')].
        -- left. right. split; [congruence|done].
        -- apply elem_of_cons in Hin as [[= -> ->]|Hin].
           ++ left. left. split; [done|congruence].
           ++ right. by exists t'.
Qed.

(** X17: on every registry that the operations can build,
    [active_watches] does not raise, and it lists exactly the keys whose
    task is not done, each with the first two parts of the key; keys of
    finished or cancelled monitors stay in [_monitor_tasks] and are left
    out of the listing. *)
Theorem active_watches_lists_live cfg r :
  reachable cfg r →
  ∃ m, active_watches r = Ok m ∧
       ∀ k, (is_Some (m !! k) ↔ live_under r k = true) ∧
            ∀ v, m !! k = Some v → unpack_key k = Ok v.
Proof.
  intros Hreach. unfold active_watches.
  destruct (active_loop_spec r (map_to_list (_monitor_tasks r)) ∅)
    as (m & Hm & Hspec).
  - apply NoDup_fst_map_to_list.
  - intros k _. apply lookup_empty.
  - intros k t Hin. apply elem_of_map_to_list in Hin.
    destruct (reachable_keys_from_filters cfg r Hreach k t Hin) as [req ->].
    apply unpack_filter_key_returns.
  - exists m. split; [done|]. intros k. split.
    + unfold live_under. split.
      * intros [v Hv]. apply Hspec in Hv as [Hv|(t & Hin & Hlive & _)].
        { by rewrite lookup_empty in Hv. }
        apply elem_of_map_to_list in Hin. by rewrite Hin, Hlive.
      * destruct (_monitor_tasks r !! k) as [t|] eqn:Hk; [|done].
        intros Hlive. apply negb_true_iff in Hlive.
        destruct (reachable_keys_from_filters cfg r Hreach k t Hk)
          as [req ->].
        destruct (unpack_filter_key_returns req) as [v Hv].
        exists v. apply Hspec. right. exists t.
        split; [by apply elem_of_map_to_list|done].
    + intros v Hv. apply Hspec in Hv as [Hv|(t & _ & _ & Hv)]; [|done].
      by rewrite lookup_empty in Hv.
Qed.

Lemma active_watches_lists_live_witness :
  let req := {| wr_location := "Seoul"; wr_keyword := "bike";
                wr_min_price := None; wr_max_price := None |} in
  let r1 := (watch sample_config empty_registry req).1 in
  let r2 := deliver_cancel (stop_watch r1 req).1 0 in
  active_watches r1 = Ok {[ "Seoul:bike:None:None" := ("Seoul", "bike") ]} ∧
  ∃ m, active_watches r2 = Ok m ∧
       ¬ is_Some (m !! "Seoul:bike:None:None") ∧
       is_Some (_monitor_tasks r2 !! "Seoul:bike:None:None").
Proof.
  intros req r1 r2. split; [vm_compute; reflexivity|].
  assert (reachable sample_config r2) as Hreach.
  { apply reach_deliver, reach_stop, reach_watch, reach_empty. }
  destruct (active_watches_lists_live sample_config r2 Hreach)
    as (m & Hm & Hspec).
  exists m. split; [exact Hm|]. split.
  - intros Hsome. apply (Hspec "Seoul:bike:None:None") in Hsome.
    vm_compute in Hsome. discriminate Hsome.
  - exists 0%nat. vm_compute. reflexivity.
Defined.

(** ** Registry: stopping and starting again *)

(** The registries that the operations and the event loop reach from
    [r]. *)
Inductive evolves (cfg : Config) (r : Registry) : Registry → Prop :=
  | evolves_refl : evolves cfg r r
  | evolves_watch r' req :
      evolves cfg r r' → evolves cfg r (watch cfg r' req).1
  | evolves_stop r' req :
      evolves cfg r r' → evolves cfg r (stop_watch r' req).1
  | evolves_deliver r' t :
      evolves cfg r r' → evolves cfg r (deliver_cancel r' t).

Lemma evolves_keeps_keys cfg r r' k :
  evolves cfg r r' →
  is_Some (_monitor_tasks r !! k) → is_Some (_monitor_tasks r' !! k).
Proof.
  induction 1 as [|r' req _ IH|r' req _ IH|r' t _ IH]; intros Hk.
  - done.
  - unfold watch. destruct (live_under r' (filter_key req)); simpl; [auto|].
    rewrite lookup_insert_is_Some.
    destruct (decide (filter_key req = k)); [by left|right; auto].
  - unfold stop_watch.
    destruct (_monitor_tasks r' !! filter_key req); simpl; auto.
  - simpl. auto.
Qed.

(** X18: no operation removes an entry of [_monitor_tasks].  Once a
    filter has been watched, [stop_watch] never answers [NotFound] for it
    again, whatever happened in between: also when its monitor was stopped
    and has finished long ago, the answer is [Stopping]. *)
Theorem stop_watch_after_watch_never_not_found cfg r req r' :
  evolves cfg (watch cfg r req).1 r' →
  (stop_watch r' req).2 = Stopping.
Proof.
  intros Hev. unfold stop_watch.
  destruct (evolves_keeps_keys cfg _ r' (filter_key req) Hev) as [t ->];
    [|done].
  pose proof (watch_live cfg r req) as Hl. unfold live_under in Hl.
  by destruct (_monitor_tasks (watch cfg r req).1 !! filter_key req).
Qed.

Lemma stop_watch_after_watch_never_not_found_witness :
  let req := {| wr_location := "Seoul"; wr_keyword := "bike";
                wr_min_price := None; wr_max_price := None |} in
  let r1 := (watch sample_config empty_registry req).1 in
  let r2 := deliver_cancel (stop_watch r1 req).1 0 in
  task_done r2 0 = true ∧ (stop_watch r2 req).2 = Stopping.
Proof.
  intros req r1 r2. split; [reflexivity|].
  apply (stop_watch_after_watch_never_not_found sample_config empty_registry
           req r2).
  apply evolves_deliver, evolves_stop, evolves_refl.
Defined.

(** X19: [stop_watch] only requests the cancellation, so a [watch] for the
    same filter that arrives before the monitor has ended still finds it
    live and answers [AlreadyWatching]; when the cancellation is then
    delivered, no monitor is left for the filter.  A [watch] that arrives
    after the monitor has ended starts a new one. *)
Theorem watch_between_stop_and_end cfg r req t :
  _monitor_tasks r !! filter_key req = Some t →
  task_done r t = false →
  let r1 := (stop_watch r req).1 in
  let r2 := deliver_cancel r1 t in
  watch cfg r1 req = (r1, AlreadyWatching) ∧
  live_under r2 (filter_key req) = false ∧
  (watch cfg r2 req).2 =
    Watching (wr_location req) (wr_keyword req) (wr_min_price req)
      (wr_max_price req) ∧
  live_under (watch cfg r2 req).1 (filter_key req) = true.
Proof.
  intros Hk Hlive r1 r2.
  assert (r1 = task_cancel r t) as Hr1
    by (subst r1; unfold stop_watch; by rewrite Hk).
  assert (live_under r1 (filter_key req) = true) as Hl1.
  { rewrite Hr1. unfold live_under. simpl. rewrite Hk.
    by rewrite task_done_alter_cancel, Hlive. }
  assert (live_under r2 (filter_key req) = false) as Hl2.
  { subst r2. rewrite Hr1. unfold live_under. simpl. rewrite Hk.
    unfold task_done in *. simpl. rewrite !list_lookup_alter_eq.
    destruct (tasks r !! t) as [tk|]; [|done]. simpl.
    by destruct (task_state tk). }
  split; [unfold watch; by rewrite Hl1|]. split; [done|].
  split; [unfold watch; by rewrite Hl2|]. apply watch_live.
Qed.

Lemma watch_between_stop_and_end_witness :
  let req := {| wr_location := "Seoul"; wr_keyword := "bike";
                wr_min_price := None; wr_max_price := None |} in
  let r := (watch sample_config empty_registry req).1 in
  let r1 := (stop_watch r req).1 in
  let r2 := deliver_cancel r1 0 in
  watch sample_config r1 req = (r1, AlreadyWatching) ∧
  live_under r2 (filter_key req) = false.
Proof.
  intros req r r1 r2.
  destruct (watch_between_stop_and_end sample_config r req 0)
    as (H1 & H2 & _); [vm_compute; reflexivity|reflexivity|].
  split; [exact H1|exact H2].
Defined.

(** ** Registry: when keys tell filters apart *)

(** A character of a printed integer: a digit or the minus sign. *)
Definition num_char (c : Ascii.ascii) : bool :=
  let n := Ascii.nat_of_ascii c in
  ((48 <=? n)%nat && (n <=? 57)%nat) || (n =? 45)%nat.

Lemma pretty_N_char_num x : (x < 10)%N → num_char (pretty_N_char x) = true.
Proof.
  intros Hx.
  assert (x = 0 ∨ x = 1 ∨ x = 2 ∨ x = 3 ∨ x = 4 ∨ x = 5 ∨ x = 6 ∨ x = 7
          ∨ x = 8 ∨ x = 9)%N as Hc by lia.
  repeat (destruct Hc as [->|Hc]; [reflexivity|]). by subst x.
Qed.

Lemma pretty_N_go_num x s :
  all_chars num_char s = true → all_chars num_char (pretty_N_go x s) = true.
Proof.
  revert s. induction (N.lt_wf_0 x) as [x _ IH]; intros s Hs.
  destruct (decide (x = 0)%N) as [->|Hx]; [by rewrite pretty_N_go_0|].
  rewrite pretty_N_go_step by lia. apply IH.
  - apply N.div_lt; lia.
  - simpl. rewrite Hs, pretty_N_char_num; [done|].
    apply N.mod_lt. lia.
Qed.

Lemma pretty_Z_num (z : Z) : all_chars num_char (pretty z) = true.
Proof.
  assert (∀ p : positive, all_chars num_char (pretty p) = true) as Hp.
  { intros p. unfold pretty, pretty_positive, pretty, pretty_N.
    destruct (decide (N.pos p = 0)%N); [done|]. by apply pretty_N_go_num. }
  destruct z as [|p|p]; [done|apply Hp|].
  unfold pretty, pretty_Z. simpl. apply Hp.
Qed.

Lemma num_chars_colon_free s :
  all_chars num_char s = true → colon_free s = true.
Proof.
  unfold colon_free. induction s as [|c s IH]; simpl; [done|].
  intros [Hc Hs]%andb_true_iff. rewrite (IH Hs), andb_true_r.
  destruct (Ascii.eqb c colon) eqn:Heq; [|done].
  apply Ascii.eqb_eq in Heq. by subst c.
Qed.

Lemma py_str_colon_free x : colon_free (py_str x) = true.
Proof.
  destruct x as [z|]; [|reflexivity].
  apply num_chars_colon_free, pretty_Z_num.
Qed.

Lemma py_str_inj x y : py_str x = py_str y → x = y.
Proof.
  destruct x as [a|], y as [b|]; simpl; intros Heq.
  - f_equal. by apply (inj pretty).
  - pose proof (pretty_Z_num a) as Hn. by rewrite Heq in Hn.
  - pose proof (pretty_Z_num b) as Hn. by rewrite <- Heq in Hn.
  - done.
Qed.

Lemma split_filter_key req :
  colon_free (wr_location req) = true →
  colon_free (wr_keyword req) = true →
  split_colon (filter_key req) =
  [wr_location req; wr_keyword req; py_str (wr_min_price req);
   py_str (wr_max_price req)].
Proof.
  intros Hl Hk. unfold filter_key.
  rewrite (split_colon_app _ _ Hl), (split_colon_app _ _ Hk).
  rewrite (split_colon_app _ _ (py_str_colon_free _)).
  by rewrite (split_colon_free _ (py_str_colon_free _)).
Qed.

(** X20: among filters whose location and keyword hold no colon, the key
    identifies the filter: two such filters with the same key have the
    same location, keyword and price bounds, an absent bound included (its
    text, None, is no printed integer).  The collisions of keys need a
    colon in a location or a keyword. *)
Theorem filter_key_inj_colon_free req1 req2 :
  colon_free (wr_location req1) = true →
  colon_free (wr_keyword req1) = true →
  colon_free (wr_location req2) = true →
  colon_free (wr_keyword req2) = true →
  filter_key req1 = filter_key req2 →
  req1 = req2.
Proof.
  intros Hl1 Hk1 Hl2 Hk2 Heq.
  pose proof (split_filter_key req1 Hl1 Hk1) as H1.
  pose proof (split_filter_key req2 Hl2 Hk2) as H2.
  rewrite Heq, H2 in H1. injection H1 as Hl Hk Hmin Hmax.
  apply py_str_inj in Hmin, Hmax.
  destruct req1, req2; simpl in *. congruence.
Qed.

Lemma filter_key_inj_colon_free_witness :
  let req1 := {| wr_location := "Seoul"; wr_keyword := "bike";
                 wr_min_price := None; wr_max_price := Some 5 |} in
  let req2 := {| wr_location := "Seoul"; wr_keyword := "bike";
                 wr_min_price := None; wr_max_price := Some 50 |} in
  filter_key req1 ≠ filter_key req2.
Proof.
  intros req1 req2 Heq.
  assert (req1 = req2) as Hreq
    by (apply filter_key_inj_colon_free; [reflexivity..|exact Heq]).
  discriminate Hreq.
Defined.

(** ** Monitor: failures of one listing *)






